(** * dictyBase/go-middlewares: cache and JSON-API query middlewares

    A shallow embedding of [middlewares/query/query.go] and of the day-based
    [cache] package, together with the small part of the Go standard library
    they call ([strings], [strconv], [regexp], [net/http], [context], [time]).

    Conventions.
    - A Go [string] is a [string] of bytes.
    - A Go map whose iteration order does not matter is a [gmap]; the result
      of [r.URL.Query()] is the list of its entries in the order in which the
      [range] statement visits them (Go leaves that order unspecified, so
      every statement below quantifies over it).
    - A handler is a function on an explicit [ResponseWriter] state. *)

From Stdlib Require Import ZArith String Ascii List Lia.
From Stdlib Require Import Numbers.DecimalString Numbers.DecimalPos.
From stdpp Require Import gmap strings list.

Set Warnings "-register-all".

Local Open Scope string_scope.
Local Open Scope Z_scope.

(** ** Bytes and strings of the Go runtime *)

Module GoString.

Definition byte_in (lo hi : ascii) (c : ascii) : bool :=
  ((nat_of_ascii lo <=? nat_of_ascii c) && (nat_of_ascii c <=? nat_of_ascii hi))%nat.

Definition is_digit (c : ascii) : bool := byte_in "0" "9" c.
Definition is_upper (c : ascii) : bool := byte_in "A" "Z" c.
Definition is_lower (c : ascii) : bool := byte_in "a" "z" c.

Definition to_upper (c : ascii) : ascii :=
  if is_lower c then ascii_of_nat (nat_of_ascii c - 32) else c.
Definition to_lower (c : ascii) : ascii :=
  if is_upper c then ascii_of_nat (nat_of_ascii c + 32) else c.

Fixpoint forallb_string (p : ascii -> bool) (s : string) : bool :=
  match s with
  | EmptyString => true
  | String c s' => p c && forallb_string p s'
  end.

Definition is_empty (s : string) : bool :=
  match s with EmptyString => true | _ => false end.

(** [strings.HasPrefix(s, prefix)] *)
Definition HasPrefix (s prefix : string) : bool := String.prefix prefix s.

(** [strings.Contains(s, sep)] for a one-byte [sep]. *)
Fixpoint Contains (s : string) (sep : ascii) : bool :=
  match s with
  | EmptyString => false
  | String c s' => Ascii.eqb c sep || Contains s' sep
  end.

(** [strings.Split(s, sep)] for a one-byte [sep]: the pieces between the
    occurrences of [sep]; [n] occurrences give [n + 1] pieces. *)
Fixpoint Split (s : string) (sep : ascii) : list string :=
  match s with
  | EmptyString => [EmptyString]
  | String c s' =>
      if Ascii.eqb c sep then EmptyString :: Split s' sep
      else match Split s' sep with
           | piece :: rest => String c piece :: rest
           | [] => [String c EmptyString]
           end
  end.

(** Joining the pieces with the separator gives the string back. *)
Fixpoint Join (pieces : list string) (sep : ascii) : string :=
  match pieces with
  | [] => EmptyString
  | [piece] => piece
  | piece :: rest => piece +:+ String sep (Join rest sep)
  end.

(** [strconv.Itoa] *)
Definition Itoa (n : Z) : string := NilEmpty.string_of_int (Z.to_int n).

(** The double quote, byte 34. *)
Definition dquote : ascii := ascii_of_nat 34.

Definition hex_digit (n : nat) : ascii :=
  if (n <? 10)%nat then ascii_of_nat (48 + n) else ascii_of_nat (87 + n).

(** One byte of [strconv.Quote]: the quote and the backslash are escaped,
    printable ASCII is kept, control bytes use Go's short escapes or
    [\xNN].  The model is exact on ASCII input. *)
Definition quote_byte (c : ascii) : string :=
  let n := nat_of_ascii c in
  if Ascii.eqb c dquote then String "\" (String dquote EmptyString)
  else if Ascii.eqb c "\" then String "\" (String "\" EmptyString)
  else if ((32 <=? n) && (n <? 127))%nat then String c EmptyString
  else if (n =? 7)%nat then "\a"
  else if (n =? 8)%nat then "\b"
  else if (n =? 12)%nat then "\f"
  else if (n =? 10)%nat then "\n"
  else if (n =? 13)%nat then "\r"
  else if (n =? 9)%nat then "\t"
  else if (n =? 11)%nat then "\v"
  else String "\" (String "x" (String (hex_digit (n / 16))
                                 (String (hex_digit (n mod 16)) EmptyString))).

Fixpoint quote_body (s : string) : string :=
  match s with
  | EmptyString => EmptyString
  | String c s' => quote_byte c +:+ quote_body s'
  end.

(** [strconv.Quote(s)]: a double-quoted Go string literal representing [s]. *)
Definition Quote (s : string) : string :=
  String dquote (quote_body s +:+ String dquote EmptyString).

End GoString.

(** ** [regexp]: the one pattern the package compiles *)

Module Regexp.
Import GoString.

(** The class [\w] of RE2: [0-9A-Za-z_]. *)
Definition is_word (c : ascii) : bool :=
  is_digit c || is_upper c || is_lower c || Ascii.eqb c "_".

(** Longest prefix of word bytes, and what follows it. *)
Fixpoint span_word (s : string) : string * string :=
  match s with
  | EmptyString => (EmptyString, EmptyString)
  | String c s' =>
      if is_word c
      then let '(w, rest) := span_word s' in (String c w, rest)
      else (EmptyString, s)
  end.

(** Where [span_word] stops: at the end, or in front of a byte outside
    [\w]. *)
Definition stops (rest : string) : Prop :=
  match rest with
  | EmptyString => True
  | String c _ => is_word c = false
  end.

(** [qregx.FindStringSubmatch(k)] for [qregx = ^\w+\[(\w+)\]$]: [None] is
    Go's [nil]; [Some (m0, m1)] is the slice holding the whole match and the
    text of the capture group. *)
Definition FindStringSubmatch (k : string) : option (string * string) :=
  let '(name, rest) := span_word k in
  if is_empty name then None
  else match rest with
       | String "[" rest1 =>
           let '(sub, rest2) := span_word rest1 in
           if is_empty sub then None
           else match rest2 with
                | String "]" EmptyString => Some (k, sub)
                | _ => None
                end
       | _ => None
       end.

(** What the pattern means: a non-empty word, an opening bracket, a
    non-empty word (the capture), a closing bracket, and nothing else. *)
Definition matches (k sub : string) : Prop :=
  exists name : string,
    name <> EmptyString /\ forallb_string is_word name = true /\
    sub <> EmptyString /\ forallb_string is_word sub = true /\
    k = name +:+ "[" +:+ sub +:+ "]".

End Regexp.

(** ** [net/http]: headers and the response writer *)

Module Http.
Import GoString.

(** [http.Header], a [map[string][]string] under canonical keys. *)
Abbreviation Header := (gmap string (list string)).

Definition is_token_byte (c : ascii) : bool :=
  is_digit c || is_upper c || is_lower c ||
  Contains "!#$%&'*+-.^_`|~" c.

Fixpoint canonical_from (upper : bool) (s : string) : string :=
  match s with
  | EmptyString => EmptyString
  | String c s' =>
      let c' := if upper then to_upper c else to_lower c in
      String c' (canonical_from (Ascii.eqb c' "-") s')
  end.

(** [http.CanonicalHeaderKey]: the first letter and every letter after a
    hyphen in upper case, the others in lower case; a key holding a byte
    that is no header token byte is returned as it is. *)
Definition CanonicalHeaderKey (s : string) : string :=
  if forallb_string is_token_byte s then canonical_from true s else s.

(** [h.Get(key)]: the first value under the canonical key, or the empty
    string. *)
Definition Get (h : Header) (key : string) : string :=
  match h !! CanonicalHeaderKey key with
  | Some (v :: _) => v
  | _ => EmptyString
  end.

(** [h.Set(key, value)] *)
Definition Set_ (h : Header) (key value : string) : Header :=
  <[CanonicalHeaderKey key := [value]]> h.

Definition StatusOK : Z := 200.
Definition StatusBadRequest : Z := 400.
Definition StatusNotAcceptable : Z := 406.
Definition StatusUnsupportedMediaType : Z := 415.
Definition StatusInternalServerError : Z := 500.

(** JSON documents, as [encoding/json] writes them. *)
Inductive json : Type :=
| JString (s : string)
| JArray (items : list json)
| JObject (members : list (string * json)).

(** What one call of [Write] puts on the wire. *)
Inductive written : Type :=
| Json (doc : json)     (* an encoded document and its newline *)
| Line (text : string). (* a line of text and its newline *)

(** The state behind an [http.ResponseWriter], after the contract of
    [net/http]: [w_Header] is the live map returned by [w.Header()]; the
    first [WriteHeader] (explicit, or implied by the first [Write]) fixes
    the status code and the headers that are sent, and neither a later
    [WriteHeader] nor a later change of the map alters them.  [w_faults]
    gives the outcome of the coming calls of [Write]: [Some msg] is a
    call that writes nothing and returns the error [msg]; past the end of
    the list every call succeeds. *)
Record ResponseWriter : Type := mkWriter {
  w_Header : Header;
  w_wroteHeader : bool;
  w_Code : Z;
  w_sent : Header;
  w_Body : list written;
  w_faults : list (option string)
}.

Definition HeaderSet (w : ResponseWriter) (key value : string) : ResponseWriter :=
  mkWriter (Set_ (w_Header w) key value) (w_wroteHeader w) (w_Code w)
           (w_sent w) (w_Body w) (w_faults w).

Definition WriteHeader (w : ResponseWriter) (code : Z) : ResponseWriter :=
  if w_wroteHeader w then w
  else mkWriter (w_Header w) true code (w_Header w) (w_Body w) (w_faults w).

Definition Write (w : ResponseWriter) (data : written) : ResponseWriter * option string :=
  let w1 := WriteHeader w StatusOK in
  match w_faults w1 with
  | Some msg :: later =>
      (mkWriter (w_Header w1) (w_wroteHeader w1) (w_Code w1) (w_sent w1)
                (w_Body w1) later, Some msg)
  | None :: later =>
      (mkWriter (w_Header w1) (w_wroteHeader w1) (w_Code w1) (w_sent w1)
                (w_Body w1 ++ [data]) later, None)
  | [] =>
      (mkWriter (w_Header w1) (w_wroteHeader w1) (w_Code w1) (w_sent w1)
                (w_Body w1 ++ [data]) [], None)
  end.

(** [http.Error(w, error, code)] *)
Definition Error (w : ResponseWriter) (error : string) (code : Z) : ResponseWriter :=
  let w1 := HeaderSet w "Content-Type" "text/plain; charset=utf-8" in
  let w2 := HeaderSet w1 "X-Content-Type-Options" "nosniff" in
  let w3 := WriteHeader w2 code in
  fst (Write w3 (Line error)).

(** A writer on which nothing was set or written. *)
Definition fresh (faults : list (option string)) : ResponseWriter :=
  mkWriter ∅ false 0 ∅ [] faults.

End Http.

(** ** [time]: instants, durations and the HTTP date format *)

Module Time.
Import GoString.

(** [time.Duration]: a count of nanoseconds in an [int64]. *)
Definition wrap64 (z : Z) : Z := (z + 2 ^ 63) mod 2 ^ 64 - 2 ^ 63.
Definition mul (a b : Z) : Z := wrap64 (a * b).

Definition Nanosecond : Z := 1.
Definition Second : Z := 1000000000.
Definition Hour : Z := 3600 * Second.

(** [d.Seconds()], read as a whole number: the float it returns is
    [d / Second] whenever [d] is a multiple of [Second]. *)
Definition Seconds (d : Z) : Z := Z.quot d Second.

(** [time.Time]: an instant, as seconds since the Unix epoch, with the
    offset east of UTC, in seconds, that its [Location] gives it. *)
Record Time : Type := mkTime {
  unix : Z;
  zoneOffset : Z
}.

(** The instant [sec] seconds after the epoch, in UTC. *)
Definition UTC (sec : Z) : Time := mkTime sec 0.

(** [t.Add(d)], where the zone of [t] has no transition in between. *)
Definition Add (t : Time) (d : Z) : Time :=
  mkTime (unix t + Z.quot d Second) (zoneOffset t).

(** Year, month and day of a count of days since 1970-01-01. *)
Definition civil (days : Z) : Z * Z * Z :=
  let z := days + 719468 in
  let era := z / 146097 in
  let doe := z - era * 146097 in
  let yoe := (doe - doe / 1460 + doe / 36524 - doe / 146096) / 365 in
  let doy := doe - (365 * yoe + yoe / 4 - yoe / 100) in
  let mp := (5 * doy + 2) / 153 in
  let d := doy - (153 * mp + 2) / 5 + 1 in
  let m := if mp <? 10 then mp + 3 else mp - 9 in
  let y := yoe + era * 400 + (if m <=? 2 then 1 else 0) in
  (y, m, d).

Definition pad2 (n : Z) : string :=
  if n <? 10 then "0" +:+ Itoa n else Itoa n.

Definition pad4 (n : Z) : string :=
  if n <? 10 then "000" +:+ Itoa n
  else if n <? 100 then "00" +:+ Itoa n
  else if n <? 1000 then "0" +:+ Itoa n
  else Itoa n.

Definition weekday_name (n : Z) : string :=
  nth (Z.to_nat n) ["Sun"; "Mon"; "Tue"; "Wed"; "Thu"; "Fri"; "Sat"] EmptyString.

Definition month_name (m : Z) : string :=
  nth (Z.to_nat (m - 1))
      ["Jan"; "Feb"; "Mar"; "Apr"; "May"; "Jun";
       "Jul"; "Aug"; "Sep"; "Oct"; "Nov"; "Dec"] EmptyString.

(** [t.Format(http.TimeFormat)], the layout
    [Mon, 02 Jan 2006 15:04:05 GMT], for years 0 to 9999: the date and the
    clock are those of the zone of [t], and [GMT] is text of the layout,
    written whatever that zone is. *)
Definition FormatHTTP (t : Time) : string :=
  let local := unix t + zoneOffset t in
  let days := local / 86400 in
  let secs := local mod 86400 in
  let '(y, m, d) := civil days in
  weekday_name ((days + 4) mod 7) +:+ ", " +:+ pad2 d +:+ " " +:+
  month_name m +:+ " " +:+ pad4 y +:+ " " +:+
  pad2 (secs / 3600) +:+ ":" +:+ pad2 (secs mod 3600 / 60) +:+ ":" +:+
  pad2 (secs mod 60) +:+ " GMT".

(** The text of the layout element [MST]: the abbreviation of the zone,
    or, when the zone has none, its offset as a sign, hours and minutes. *)
Definition zone_text (name : string) (offset : Z) : string :=
  if is_empty name then
    let zone := Z.quot offset 60 in
    (if zone <? 0 then "-" else "+") +:+
    pad2 (Z.abs zone / 60) +:+ pad2 (Z.abs zone mod 60)
  else name.

(** [t.Format(time.RFC1123)], the layout [Mon, 02 Jan 2006 15:04:05 MST],
    for the instant [t] seconds after the epoch, read in a zone with the
    abbreviation [name], [offset] seconds east of UTC. *)
Definition FormatRFC1123 (name : string) (offset : Z) (t : Z) : string :=
  let local := t + offset in
  let days := local / 86400 in
  let secs := local mod 86400 in
  let '(y, m, d) := civil days in
  weekday_name ((days + 4) mod 7) +:+ ", " +:+ pad2 d +:+ " " +:+
  month_name m +:+ " " +:+ pad4 y +:+ " " +:+
  pad2 (secs / 3600) +:+ ":" +:+ pad2 (secs mod 3600 / 60) +:+ ":" +:+
  pad2 (secs mod 60) +:+ " " +:+ zone_text name offset.

End Time.

(** ** Package [cache], the day-based constructor *)

Module cache.
Import GoString Http.

(** [HTTPCache]: [MaxAge] is a value in seconds, [Expires] a date and time
    in HTTP format. *)
Record HTTPCache : Type := mkHTTPCache {
  MaxAge : Z;
  Expires : string
}.

(** [NewHTTPCache(day, t)].  The source text multiplies a [time.Duration]
    by the [int] [day] and puts the [float64] of [duration.Seconds()] into
    the [int] field [MaxAge]; it is read here with the two conversions
    that make it Go, [time.Duration(day)] and [int(...)]:
    [duration := time.Hour * 24 * 30 * day] in [int64] nanoseconds, and
    [MaxAge] its whole seconds.  [Expires] is [t.Format(http.TimeFormat)],
    as written; [duration] has no part in it. *)
Definition NewHTTPCache (day : Z) (t : Time.Time) : HTTPCache :=
  let duration := Time.mul (Time.mul (Time.mul Time.Hour 24) 30) day in
  {| MaxAge := Time.Seconds duration;
     Expires := Time.FormatHTTP t |}.

Section Handler.
Variable Request : Type.

(** [c.Handler(next)] *)
Definition Handler (c : HTTPCache)
    (next : ResponseWriter -> Request -> ResponseWriter)
    (w : ResponseWriter) (r : Request) : ResponseWriter :=
  let w1 := HeaderSet w "Cache-Control" ("public, max-age=" +:+ Itoa (MaxAge c)) in
  let w2 := HeaderSet w1 "Expires" (Expires c) in
  next w2 r.
End Handler.

(** The number of seconds in [n] days. *)
Definition seconds_in_days (n : Z) : Z := n * 24 * 60 * 60.

End cache.

(** ** Package [nocache] *)

Module nocache.
Import GoString Http.

(** [epoch]: [time.Unix(0, 0)] is an instant in the local zone of the
    process; [zone] and [offset] are the abbreviation and the offset of
    that zone at the epoch. *)
Definition epoch (zone : string) (offset : Z) : string :=
  Time.FormatRFC1123 zone offset 0.

(** [noCacheHeaders], its entries as the source lists them. *)
Definition noCacheHeaders (zone : string) (offset : Z) : list (string * string) :=
  [("Expires", epoch zone offset);
   ("Cache-Control",
    "no-cache, no-store, no-transform, must-revalidate, private, max-age=0");
   ("Pragma", "no-cache");
   ("X-Accel-Expires", "0")].

(** The [range] loop of [Middleware] over the entries in the order
    [visited]. *)
Definition setHeaders (visited : list (string * string)) (w : ResponseWriter)
    : ResponseWriter :=
  fold_left (fun w' kv => HeaderSet w' (fst kv) (snd kv)) visited w.

Section Middleware.
Variable Request : Type.

(** [Middleware(next)]; [visited] is [noCacheHeaders] in the order in which
    the [range] statement goes through it. *)
Definition Middleware (visited : list (string * string))
    (next : ResponseWriter -> Request -> ResponseWriter)
    (w : ResponseWriter) (r : Request) : ResponseWriter :=
  next (setHeaders visited w) r.
End Middleware.

End nocache.

(** ** Package [query] *)

Module query.
Import GoString Http.

(** [contextKey], the key type of this package, among the keys other
    packages may use in a [context.Context]. *)
Inductive ctxKey : Type :=
| contextKey (name : string)
| foreignKey (pkg name : string).

#[export] Instance ctxKey_eq_dec : EqDecision ctxKey.
Proof. solve_decision. Defined.

Definition ContextKeyQueryParams : ctxKey := contextKey "jsparams".
Definition acceptH : string := CanonicalHeaderKey "accept".
Definition contentType : string := CanonicalHeaderKey "content-type".

(** The raw string literal handed to [strconv.Quote] on line 40. *)
Definition filterMediaType_literal : string :=
  "application/vnd.api+json; supported-ext=" +:+
  String dquote ("dictybase/filtering-resouce" +:+ String dquote EmptyString).

Definition filterMediaType : string := Quote filterMediaType_literal.

Definition qregx : string -> option (string * string) := Regexp.FindStringSubmatch.

(** [Params], the container of the parsed query parameters. *)
Record Params : Type := mkParams {
  Includes : list string;
  Fields : gmap string (list string);
  Filters : gmap string string;
  HasFields : bool;
  HasIncludes : bool;
  HasFilters : bool
}.

Definition newParams : Params :=
  mkParams [] ∅ ∅ false false false.

(** A value stored in a context: the [*Params] of this package, or
    something another package put there. *)
Inductive ctxValue : Type :=
| ParamsValue (p : Params)
| foreignValue (v : string).

(** [context.Context]: the chain of [WithValue] calls, innermost last. *)
Definition Context : Type := list (ctxKey * ctxValue).

Definition WithValue (parent : Context) (key : ctxKey) (val : ctxValue) : Context :=
  (key, val) :: parent.

(** [ctx.Value(key)] *)
Fixpoint Value (ctx : Context) (key : ctxKey) : option ctxValue :=
  match ctx with
  | [] => None
  | (k, v) :: parent => if decide (k = key) then Some v else Value parent key
  end.

(** The part of [*http.Request] the middleware reads: [r_Query] is
    [r.URL.Query()], listed in the order in which one [range] statement
    visits it.  Every call of the closure parses the query again and
    ranges over it in an order of its own: a second loop over the same
    request is a loop over a permutation of [r_Query]. *)
Record Request : Type := mkRequest {
  r_Query : list (string * list string);
  r_Header : Header;
  r_Context : Context
}.

Definition WithContext (r : Request) (ctx : Context) : Request :=
  mkRequest (r_Query r) (r_Header r) ctx.

(** [api2go.Error] with the fields the middleware fills; every field is
    tagged [omitempty], so the others (all zero) are not encoded. *)
Record api2go_Error : Type := mkError {
  Status : string;
  Title : string;
  Detail : string;
  Meta : list (string * string)
}.

Definition omitempty (name value : string) : list (string * json) :=
  if is_empty value then [] else [(name, JString value)].

Definition encode_meta (meta : list (string * string)) : list (string * json) :=
  match meta with
  | [] => []
  | _ => [("meta", JObject (map (fun kv => (fst kv, JString (snd kv))) meta))]
  end.

Definition encode_Error (e : api2go_Error) : json :=
  JObject (omitempty "status" (Status e) ++ omitempty "title" (Title e) ++
           omitempty "detail" (Detail e) ++ encode_meta (Meta e)).

(** [json.Marshal(api2go.HTTPError{Errors: errs})]; only [Errors] is
    exported, under the name [errors] and with [omitempty]. *)
Definition encode_HTTPError (errs : list api2go_Error) : json :=
  match errs with
  | [] => JObject []
  | _ => JObject [("errors", JArray (map encode_Error errs))]
  end.

(** [json.NewEncoder(w).Encode(v)]: the document is marshalled, which
    cannot fail for these types, and handed to one [w.Write]. *)
Definition Encode (w : ResponseWriter) (doc : json) : ResponseWriter * option string :=
  Write w (Json doc).

Definition queryParamError (w : ResponseWriter) (status : Z) (title detail : string)
    : ResponseWriter :=
  let w1 := HeaderSet w "Content-Type" "application/vnd.api+json" in
  let w2 := WriteHeader w1 status in
  let jsnErr := {| Status := Itoa status; Title := title; Detail := detail;
                   Meta := [("creator", "query middleware")] |} in
  match Encode w2 (encode_HTTPError [jsnErr]) with
  | (w3, Some err) => Error w3 err StatusInternalServerError
  | (w3, None) => w3
  end.

Definition validateHeader (w : ResponseWriter) (r : Request) : ResponseWriter * bool :=
  if negb (String.eqb (Get (r_Header r) acceptH) filterMediaType) then
    (queryParamError w StatusNotAcceptable "Accept header is not acceptable"
       ("The given Accept header value " +:+ Get (r_Header r) acceptH +:+
        " is incorrect for filter query extension"), false)
  else if negb (String.eqb (Get (r_Header r) acceptH) (Get (r_Header r) contentType)) then
    (queryParamError w StatusUnsupportedMediaType "Media type is not supported"
       ("The given media type " +:+ Get (r_Header r) contentType +:+
        " in Content-Type header is not supported"), false)
  else (w, true).

(** How one iteration of the [range] loop ends. *)
Inductive visited : Type :=
| Continue (w : ResponseWriter) (params : Params)  (* on to the next key *)
| Return (w : ResponseWriter)      (* [return] before the handler is called *)
| IndexPanic.                      (* [v[0]] on an empty slice *)

(** The value list split on commas, or alone in a list. *)
Definition comma_list (v0 : string) : list string :=
  if Contains v0 "," then Split v0 "," else [v0].

(** The body of the [range] loop for the entry [k, v]. *)
Definition visit (w : ResponseWriter) (r : Request) (params : Params)
    (k : string) (v : list string) : visited :=
  if HasPrefix k "filter" then
    match validateHeader w r with
    | (w', false) => Return w'
    | (w', true) =>
        match qregx k, v with
        | _, [] => IndexPanic
        | Some (_, m1), v0 :: _ =>
            Continue w' (mkParams (Includes params) (Fields params)
                               (<[m1 := v0]> (Filters params))
                               (HasFields params) (HasIncludes params) true)
        | None, v0 :: _ =>
            Return (queryParamError w' StatusBadRequest "Invalid query parameter"
                       ("Unable to match filter query param " +:+ v0))
        end
    end
  else if HasPrefix k "fields" then
    match qregx k, v with
    | _, [] => IndexPanic
    | Some (_, m1), v0 :: _ =>
        Continue w (mkParams (Includes params)
                             (<[m1 := comma_list v0]> (Fields params))
                             (Filters params)
                             true (HasIncludes params) (HasFilters params))
    | None, v0 :: _ =>
        Return (queryParamError w StatusBadRequest "Invalid query parameter"
                  ("Unable to match fields query param " +:+ v0))
    end
  else if String.eqb k "include" then
    match v with
    | [] => IndexPanic
    | v0 :: _ =>
        Continue w (mkParams (comma_list v0) (Fields params) (Filters params)
                             (HasFields params) true (HasFilters params))
    end
  else Continue w params.

(** The [range] loop over the entries still to visit. *)
Fixpoint rangeValues (w : ResponseWriter) (r : Request) (params : Params)
    (values : list (string * list string)) : visited :=
  match values with
  | [] => Continue w params
  | (k, v) :: later =>
      match visit w r params k v with
      | Continue w' params' => rangeValues w' r params' later
      | stop => stop
      end
  end.

(** What [newFn] does with a request. *)
Inductive outcome : Type :=
| Forwarded (w : ResponseWriter) (r : Request)  (* [fn(w, r)] is called *)
| Terminated (w : ResponseWriter)               (* it returns without calling [fn] *)
| Panicked.

(** The closure [newFn] up to its call of [fn]. *)
Definition newFn (w : ResponseWriter) (r : Request) : outcome :=
  match rangeValues w r newParams (r_Query r) with
  | Continue w' params =>
      if HasFilters params || HasFields params || HasIncludes params then
        let ctx := WithValue (r_Context r) ContextKeyQueryParams (ParamsValue params) in
        Forwarded w' (WithContext r ctx)
      else Forwarded w' r
  | Return w' => Terminated w'
  | IndexPanic => Panicked
  end.

Definition HandlerFunc : Type := ResponseWriter -> Request -> option ResponseWriter.

(** [MiddlewareFn(fn)]; [None] is a panic. *)
Definition MiddlewareFn (fn : HandlerFunc) : HandlerFunc :=
  fun w r =>
    match newFn w r with
    | Forwarded w' r' => fn w' r'
    | Terminated w' => Some w'
    | Panicked => None
    end.

(** The bundle a handler finds in a request, if any. *)
Definition bundle (r : Request) : option Params :=
  match Value (r_Context r) ContextKeyQueryParams with
  | Some (ParamsValue p) => Some p
  | _ => None
  end.

End query.

(** ** Vocabulary for the statements *)

Module queryShape.
Import GoString Http query.

(** Both header checks of [validateHeader] succeed. *)
Definition valid_headers (r : Request) : bool :=
  String.eqb (Get (r_Header r) acceptH) filterMediaType &&
  String.eqb (Get (r_Header r) acceptH) (Get (r_Header r) contentType).

(** A key the [switch] treats as a parameter of the package. *)
Definition recognized (k : string) : bool :=
  HasPrefix k "filter" || HasPrefix k "fields" || String.eqb k "include".

(** A [filter] or [fields] key that [qregx] does not match. *)
Definition malformed (k : string) : bool :=
  (HasPrefix k "filter" || HasPrefix k "fields") &&
  match qregx k with Some _ => false | None => true end.

(** A [filter] key that [qregx] matches with the capture [sub]. *)
Definition captures (k sub : string) : bool :=
  HasPrefix k "filter" &&
  match qregx k with Some (_, m1) => String.eqb m1 sub | None => false end.

(** The word the 400 detail uses for the key. *)
Definition kind (k : string) : string :=
  if HasPrefix k "filter" then "filter" else "fields".

(** The three error responses of the package. *)
Definition not_acceptable (w : ResponseWriter) (r : Request) : ResponseWriter :=
  queryParamError w StatusNotAcceptable "Accept header is not acceptable"
    ("The given Accept header value " +:+ Get (r_Header r) acceptH +:+
     " is incorrect for filter query extension").

Definition unsupported_media_type (w : ResponseWriter) (r : Request) : ResponseWriter :=
  queryParamError w StatusUnsupportedMediaType "Media type is not supported"
    ("The given media type " +:+ Get (r_Header r) contentType +:+
     " in Content-Type header is not supported").

Definition bad_request (w : ResponseWriter) (k v0 : string) : ResponseWriter :=
  queryParamError w StatusBadRequest "Invalid query parameter"
    ("Unable to match " +:+ kind k +:+ " query param " +:+ v0).

(** An entry that is not [filter]-prefixed and lets the loop go on. *)
Definition proceeds (k : string) (v : list string) : bool :=
  if HasPrefix k "filter" then false
  else if HasPrefix k "fields" then
    match qregx k, v with Some _, _ :: _ => true | _, _ => false end
  else if String.eqb k "include" then
    match v with [] => false | _ :: _ => true end
  else true.

(** What [url.ParseQuery] guarantees: no key with an empty value slice. *)
Definition parsed (values : list (string * list string)) : Prop :=
  Forall (fun kv => snd kv <> []) values.

(** The error document of [queryParamError]. *)
Definition error_document (status : Z) (title detail : string) : json :=
  JObject [("errors",
    JArray [JObject [("status", JString (Itoa status));
                     ("title", JString title);
                     ("detail", JString detail);
                     ("meta", JObject [("creator", JString "query middleware")])]])].

(** Request headers with one [Accept] and one [Content-Type] value. *)
Definition headers (accept ctype : string) : Header :=
  Set_ (Set_ ∅ "Accept" accept) "Content-Type" ctype.

Definition request (values : list (string * list string)) (h : Header) : Request :=
  mkRequest values h [].

End queryShape.

(** ** Vocabulary for the loop as a whole *)

Module queryOrder.
Import GoString Http query queryShape.

(** [contextKey.String()] *)
Definition contextKey_String (c : string) : string :=
  "pagination context key " +:+ c.

(** A [fields] key, as the [switch] reads it, that [qregx] matches with
    the capture [sub]. *)
Definition captures_fields (k sub : string) : bool :=
  negb (HasPrefix k "filter") && HasPrefix k "fields" &&
  match qregx k with Some (_, m1) => String.eqb m1 sub | None => false end.

(** A key that makes the loop [return] in a request with the headers of
    [r]. *)
Definition halts (r : Request) (k : string) : bool :=
  if HasPrefix k "filter" then
    negb (valid_headers r) || match qregx k with Some _ => false | None => true end
  else if HasPrefix k "fields" then
    match qregx k with Some _ => false | None => true end
  else false.

(** The entries whose key satisfies [sel] carry the same first value. *)
Definition agree (sel : string -> bool) (values : list (string * list string)) : Prop :=
  forall k1 v1 k2 v2,
    In (k1, v1) values -> In (k2, v2) values ->
    sel k1 = true -> sel k2 = true -> head v1 = head v2.

(** No two entries compete for one place of the bundle: the keys that
    capture one name, as filters or as fields, and the [include] keys agree
    on their first value.  Distinct keys with distinct captures do. *)
Definition unambiguous (values : list (string * list string)) : Prop :=
  (forall sub, agree (fun k => captures k sub) values) /\
  (forall sub, agree (fun k => captures_fields k sub) values) /\
  agree (fun k => String.eqb k "include") values.

(** The flags say what the bundle holds. *)
Definition flags_ok (p : Params) : Prop :=
  (HasFilters p = true <-> Filters p <> ∅) /\
  (HasFields p = true <-> Fields p <> ∅) /\
  (HasIncludes p = true <-> Includes p <> []).

(** The request [r] with another query, or other headers. *)
Definition with_query (r : Request) (values : list (string * list string)) : Request :=
  mkRequest values (r_Header r) (r_Context r).

Definition with_headers (r : Request) (h : Header) : Request :=
  mkRequest (r_Query r) h (r_Context r).

(** An outcome with its forwarded request changed by [f]. *)
Definition map_forwarded (f : Request -> Request) (o : outcome) : outcome :=
  match o with
  | Forwarded w r => Forwarded w (f r)
  | other => other
  end.

(** The entries with their first value only. *)
Definition first_values (values : list (string * list string))
    : list (string * list string) :=
  map (fun kv => (fst kv, firstn 1 (snd kv))) values.

End queryOrder.

(** * The library models *)

Module GoStringFacts.
Import GoString.

Lemma Split_without_sep (s : string) (sep : ascii) :
  Contains s sep = false -> Split s sep = [s].
Proof.
  induction s as [|c s IH]; simpl; [reflexivity|].
  intros H. apply orb_false_iff in H as [Hc Hs].
  rewrite Hc, (IH Hs). reflexivity.
Qed.

Lemma Split_nonempty (s : string) (sep : ascii) : Split s sep <> [].
Proof.
  destruct s as [|c s]; simpl; [discriminate|].
  destruct (Ascii.eqb c sep); [discriminate|].
  destruct (Split s sep); discriminate.
Qed.

Lemma Join_Split (s : string) (sep : ascii) : Join (Split s sep) sep = s.
Proof.
  induction s as [|c s IH]; simpl; [reflexivity|].
  destruct (Ascii.eqb_spec c sep) as [->|Hne].
  - pose proof (Split_nonempty s sep) as Hn.
    destruct (Split s sep) as [|p ps]; [contradiction|].
    simpl in *. rewrite IH. reflexivity.
  - pose proof (Split_nonempty s sep) as Hn.
    destruct (Split s sep) as [|p ps]; [contradiction|].
    destruct ps as [|q qs]; simpl in *; rewrite <- IH; reflexivity.
Qed.

Lemma Split_pieces_without_sep (s : string) (sep : ascii) :
  Forall (fun piece => Contains piece sep = false) (Split s sep).
Proof.
  induction s as [|c s IH]; simpl.
  - constructor; [reflexivity|constructor].
  - destruct (Ascii.eqb c sep) eqn:Hc.
    + constructor; [reflexivity|exact IH].
    + destruct (Split s sep) as [|p ps].
      * constructor; [simpl; rewrite Hc; reflexivity|constructor].
      * inversion IH as [|? ? Hp Hps]; subst.
        constructor; [simpl; rewrite Hc; exact Hp|exact Hps].
Qed.

Lemma is_empty_true (s : string) : is_empty s = true <-> s = EmptyString.
Proof. destruct s; simpl; split; congruence. Qed.

Lemma is_empty_false (s : string) : is_empty s = false <-> s <> EmptyString.
Proof. destruct s; simpl; split; congruence. Qed.

Lemma forallb_string_app (p : ascii -> bool) (a b : string) :
  forallb_string p (a +:+ b) = forallb_string p a && forallb_string p b.
Proof.
  induction a as [|c a IH]; simpl; [reflexivity|].
  rewrite IH, andb_assoc. reflexivity.
Qed.

End GoStringFacts.

Module RegexpFacts.
Import GoString GoStringFacts Regexp.

Lemma span_word_sound (s : string) :
  forall w rest, span_word s = (w, rest) ->
    s = w +:+ rest /\ forallb_string is_word w = true /\ stops rest.
Proof.
  induction s as [|c s IH]; simpl; intros w rest H.
  - inversion H; subst. simpl. auto.
  - destruct (is_word c) eqn:Hc.
    + destruct (span_word s) as [w' rest'] eqn:Hs.
      inversion H; subst.
      destruct (IH w' rest eq_refl) as (-> & Hw & Hstop).
      simpl. rewrite Hc, Hw. auto.
    + inversion H; subst. simpl. auto.
Qed.

Lemma span_word_complete (w rest : string) :
  forallb_string is_word w = true -> stops rest ->
  span_word (w +:+ rest) = (w, rest).
Proof.
  induction w as [|c w IH]; simpl; intros Hw Hstop.
  - destruct rest as [|c rest]; simpl in *; [reflexivity|].
    rewrite Hstop. reflexivity.
  - apply andb_true_iff in Hw as [Hc Hw].
    rewrite Hc, (IH Hw Hstop). reflexivity.
Qed.

(** The matcher returns the capture exactly on the strings of the
    language of [^\w+\[(\w+)\]$]. *)
Lemma FindStringSubmatch_spec (k m0 sub : string) :
  FindStringSubmatch k = Some (m0, sub) <-> m0 = k /\ matches k sub.
Proof.
  unfold FindStringSubmatch, matches. split.
  - destruct (span_word k) as [name rest] eqn:Hk.
    destruct (is_empty name) eqn:Hname; [discriminate|].
    destruct rest as [|c rest1]; [discriminate|].
    destruct (Ascii.eqb_spec c "[") as [->|Hc].
    2:{ intros H. exfalso. revert H.
        destruct c as [[] [] [] [] [] [] [] []]; try discriminate.
        contradiction Hc. reflexivity. }
    destruct (span_word rest1) as [sub' rest2] eqn:Hr.
    destruct (is_empty sub') eqn:Hsub; [discriminate|].
    destruct rest2 as [|d rest3]; [discriminate|].
    destruct (Ascii.eqb_spec d "]") as [->|Hd].
    2:{ intros H. exfalso. revert H.
        destruct d as [[] [] [] [] [] [] [] []]; try discriminate.
        contradiction Hd. reflexivity. }
    destruct rest3; [|discriminate].
    intros H. inversion H; subst. split; [reflexivity|].
    apply span_word_sound in Hk as (Hk & Hw1 & _).
    apply span_word_sound in Hr as (Hr & Hw2 & _).
    exists name. repeat split.
    + apply is_empty_false. exact Hname.
    + exact Hw1.
    + apply is_empty_false. exact Hsub.
    + exact Hw2.
    + rewrite Hk, Hr. reflexivity.
  - intros (-> & name & Hn & Hw1 & Hs & Hw2 & ->).
    rewrite (span_word_complete name ("[" +:+ sub +:+ "]") Hw1 eq_refl).
    apply is_empty_false in Hn. rewrite Hn.
    change ("[" +:+ sub +:+ "]") with (String "[" (sub +:+ "]")).
    cbv beta iota.
    rewrite (span_word_complete sub "]" Hw2 eq_refl).
    apply is_empty_false in Hs. rewrite Hs. reflexivity.
Qed.

End RegexpFacts.

Module HttpFacts.
Import GoString GoStringFacts Http.

Lemma Itoa_nonempty (n : Z) : is_empty (Itoa n) = false.
Proof.
  unfold Itoa. destruct n as [|p|p]; simpl; [reflexivity| |reflexivity].
  pose proof (DecimalPos.Unsigned.to_uint_nonnil p) as Hp.
  destruct (Pos.to_uint p); [contradiction|reflexivity..].
Qed.

Lemma WriteHeader_first (w : ResponseWriter) (code : Z) :
  w_wroteHeader w = false ->
  WriteHeader w code =
    mkWriter (w_Header w) true code (w_Header w) (w_Body w) (w_faults w).
Proof. unfold WriteHeader. intros ->. reflexivity. Qed.

Lemma WriteHeader_again (w : ResponseWriter) (code : Z) :
  w_wroteHeader w = true -> WriteHeader w code = w.
Proof. unfold WriteHeader. intros ->. reflexivity. Qed.

(** A call of [Write] leaves the status code and the sent headers of a
    writer whose header is out as they are. *)
Lemma Write_keeps_sent (w : ResponseWriter) (data : written) :
  w_wroteHeader w = true ->
  w_Code (fst (Write w data)) = w_Code w /\
  w_sent (fst (Write w data)) = w_sent w /\
  w_wroteHeader (fst (Write w data)) = true.
Proof.
  intros Hw. unfold Write. rewrite (WriteHeader_again _ _ Hw).
  destruct (w_faults w) as [|[msg|] later]; simpl; auto.
Qed.

Lemma Error_keeps_sent (w : ResponseWriter) (msg : string) (code : Z) :
  w_wroteHeader w = true ->
  w_Code (Error w msg code) = w_Code w /\ w_sent (Error w msg code) = w_sent w.
Proof.
  intros Hw. unfold Error.
  set (w2 := HeaderSet (HeaderSet w _ _) _ _).
  assert (Hw2 : w_wroteHeader w2 = true) by exact Hw.
  rewrite (WriteHeader_again _ _ Hw2).
  destruct (Write_keeps_sent w2 (Line msg) Hw2) as (Hc & Hs & _).
  rewrite Hc, Hs. auto.
Qed.

End HttpFacts.

(** The models on the values the packages meet. *)

Module GoExamples.
Import GoString Regexp Http.

Example Split_three : Split "a,b,c" "," = ["a"; "b"; "c"].
Proof. reflexivity. Qed.

Example Split_empty : Split "" "," = [""].
Proof. reflexivity. Qed.

Example Split_trailing : Split "a,,b," "," = ["a"; ""; "b"; ""].
Proof. reflexivity. Qed.

Example Itoa_status : Itoa 406 = "406" /\ Itoa 0 = "0" /\ Itoa (-7) = "-7".
Proof. repeat split. Qed.

Example Quote_plain : Quote "abc" = String dquote ("abc" +:+ String dquote "").
Proof. reflexivity. Qed.

Example Quote_backslash : Quote "a\b" = String dquote ("a\\b" +:+ String dquote "").
Proof. reflexivity. Qed.

Example CanonicalHeaderKey_accept : CanonicalHeaderKey "accept" = "Accept".
Proof. reflexivity. Qed.

Example CanonicalHeaderKey_content_type :
  CanonicalHeaderKey "content-type" = "Content-Type".
Proof. reflexivity. Qed.

Example CanonicalHeaderKey_space : CanonicalHeaderKey "my key" = "my key".
Proof. reflexivity. Qed.

Example qregx_fields : FindStringSubmatch "fields[articles]" = Some ("fields[articles]", "articles").
Proof. reflexivity. Qed.

Example qregx_no_bracket : FindStringSubmatch "fieldsX" = None.
Proof. reflexivity. Qed.

Example qregx_two_brackets : FindStringSubmatch "filter[a][b]" = None.
Proof. reflexivity. Qed.

Example qregx_empty_capture : FindStringSubmatch "filter[]" = None.
Proof. reflexivity. Qed.

Example qregx_hyphen : FindStringSubmatch "filter[first-name]" = None.
Proof. reflexivity. Qed.

Example FormatHTTP_epoch :
  Time.FormatHTTP (Time.UTC 0) = "Thu, 01 Jan 1970 00:00:00 GMT".
Proof. reflexivity. Qed.

(** The date of RFC 7231, section 7.1.1.1. *)
Example FormatHTTP_rfc7231 :
  Time.FormatHTTP (Time.UTC 784111777) = "Sun, 06 Nov 1994 08:49:37 GMT".
Proof. reflexivity. Qed.

Example FormatHTTP_leap_day :
  Time.FormatHTTP (Time.UTC 951782400) = "Tue, 29 Feb 2000 00:00:00 GMT".
Proof. reflexivity. Qed.

(** An instant in a zone eight hours west of UTC: the clock of that zone,
    and [GMT] all the same. *)
Example FormatHTTP_west :
  Time.FormatHTTP (Time.mkTime 0 (-28800)) = "Wed, 31 Dec 1969 16:00:00 GMT".
Proof. reflexivity. Qed.

Example FormatHTTP_east :
  Time.FormatHTTP (Time.mkTime 784111777 3600) = "Sun, 06 Nov 1994 09:49:37 GMT".
Proof. reflexivity. Qed.

End GoExamples.

(** * The query middleware *)

Module queryFacts.
Import GoString GoStringFacts Http HttpFacts query queryShape.

Lemma acceptH_value : acceptH = "Accept".
Proof. reflexivity. Qed.

Lemma contentType_value : contentType = "Content-Type".
Proof. reflexivity. Qed.

(** The constant is the Go literal of the media type, its own quotes and
    backslashes included. *)
Lemma filterMediaType_value :
  filterMediaType =
    String dquote ("application/vnd.api+json; supported-ext=\" +:+
      String dquote ("dictybase/filtering-resouce\" +:+
        String dquote (String dquote EmptyString))).
Proof. reflexivity. Qed.

Lemma filterMediaType_not_literal : filterMediaType <> filterMediaType_literal.
Proof. discriminate. Qed.

Lemma comma_list_Split (v0 : string) : comma_list v0 = Split v0 ",".
Proof.
  unfold comma_list. destruct (Contains v0 ",") eqn:H; [reflexivity|].
  symmetry. apply Split_without_sep. exact H.
Qed.

(** *** [queryParamError] *)

Lemma queryParamError_Code (w : ResponseWriter) (status : Z) (title detail : string) :
  w_wroteHeader w = false ->
  w_Code (queryParamError w status title detail) = status /\
  w_sent (queryParamError w status title detail) !! "Content-Type"
    = Some ["application/vnd.api+json"].
Proof.
  intros Hw. unfold queryParamError, Encode.
  set (w1 := HeaderSet w "Content-Type" "application/vnd.api+json").
  assert (Hw1 : w_wroteHeader w1 = false) by exact Hw.
  rewrite (WriteHeader_first w1 status Hw1).
  set (w2 := mkWriter _ _ _ _ _ _).
  set (doc := encode_HTTPError _).
  assert (Hw2 : w_wroteHeader w2 = true) by reflexivity.
  assert (Hsent : w_sent w2 !! "Content-Type" = Some ["application/vnd.api+json"]).
  { subst w2 w1. simpl. unfold Set_.
    change (CanonicalHeaderKey "Content-Type") with "Content-Type".
    apply lookup_insert_eq. }
  destruct (Write_keeps_sent w2 (Json doc) Hw2) as (Hc & Hs & Hwh).
  destruct (Write w2 (Json doc)) as [w3 [err|]] eqn:HW; simpl in *.
  - destruct (Error_keeps_sent w3 err StatusInternalServerError Hwh) as [Hc' Hs'].
    rewrite Hc', Hs', Hc, Hs. split; [reflexivity|exact Hsent].
  - rewrite Hc, Hs. split; [reflexivity|exact Hsent].
Qed.

(** The response when the write of the document succeeds. *)
Lemma queryParamError_written (w : ResponseWriter) (status : Z) (title detail : string) :
  w_wroteHeader w = false ->
  (forall msg, head (w_faults w) <> Some (Some msg)) ->
  title <> EmptyString -> detail <> EmptyString ->
  queryParamError w status title detail =
    mkWriter (Set_ (w_Header w) "Content-Type" "application/vnd.api+json")
             true status
             (Set_ (w_Header w) "Content-Type" "application/vnd.api+json")
             (w_Body w ++ [Json (error_document status title detail)])
             (tail (w_faults w)).
Proof.
  intros Hw Hok Ht Hd. unfold queryParamError, Encode.
  set (w1 := HeaderSet w "Content-Type" "application/vnd.api+json").
  assert (Hw1 : w_wroteHeader w1 = false) by exact Hw.
  rewrite (WriteHeader_first w1 status Hw1).
  unfold encode_HTTPError, encode_Error, omitempty. simpl map.
  rewrite Itoa_nonempty.
  apply is_empty_false in Ht, Hd. rewrite Ht, Hd. simpl.
  unfold Write. simpl.
  destruct (w_faults w) as [|[msg|] later] eqn:Hf; simpl.
  - reflexivity.
  - exfalso. apply (Hok msg). reflexivity.
  - reflexivity.
Qed.

(** *** [validateHeader] *)

Lemma validateHeader_valid (w : ResponseWriter) (r : Request) :
  valid_headers r = true -> validateHeader w r = (w, true).
Proof.
  unfold valid_headers, validateHeader. intros H.
  apply andb_true_iff in H as [Ha Hc]. rewrite Ha, Hc. reflexivity.
Qed.

Lemma validateHeader_not_acceptable (w : ResponseWriter) (r : Request) :
  Get (r_Header r) acceptH <> filterMediaType ->
  validateHeader w r = (not_acceptable w r, false).
Proof.
  unfold validateHeader. intros H.
  apply String.eqb_neq in H. rewrite H. reflexivity.
Qed.

Lemma validateHeader_unsupported (w : ResponseWriter) (r : Request) :
  Get (r_Header r) acceptH = filterMediaType ->
  Get (r_Header r) contentType <> Get (r_Header r) acceptH ->
  validateHeader w r = (unsupported_media_type w r, false).
Proof.
  unfold validateHeader. intros Ha Hc.
  assert (Hc' : Get (r_Header r) acceptH <> Get (r_Header r) contentType) by congruence.
  apply String.eqb_neq in Hc'. rewrite Hc'.
  apply String.eqb_eq in Ha. rewrite Ha. reflexivity.
Qed.

Lemma validateHeader_invalid (w : ResponseWriter) (r : Request) :
  valid_headers r = false ->
  snd (validateHeader w r) = false /\
  (fst (validateHeader w r) = not_acceptable w r \/
   fst (validateHeader w r) = unsupported_media_type w r).
Proof.
  unfold valid_headers, validateHeader. intros H.
  destruct (String.eqb (Get (r_Header r) acceptH) filterMediaType); simpl in *.
  - rewrite H. simpl. auto.
  - auto.
Qed.

Lemma validateHeader_true (w w' : ResponseWriter) (r : Request) :
  validateHeader w r = (w', true) -> w' = w /\ valid_headers r = true.
Proof.
  unfold valid_headers, validateHeader.
  destruct (String.eqb (Get (r_Header r) acceptH) filterMediaType); simpl;
    [|discriminate].
  destruct (String.eqb (Get (r_Header r) acceptH) (Get (r_Header r) contentType));
    simpl; [|discriminate].
  intros H. inversion H. auto.
Qed.

End queryFacts.

(** ** The [range] loop *)

Module queryLoop.
Import GoString GoStringFacts Http HttpFacts query queryShape queryFacts.

(** Header validation comes first in the [filter] case: when it fails,
    neither the pattern nor the value is looked at. *)
Lemma visit_filter_invalid (w : ResponseWriter) (r : Request) (p : Params)
    (k : string) (v : list string) :
  HasPrefix k "filter" = true -> valid_headers r = false ->
  visit w r p k v = Return (fst (validateHeader w r)).
Proof.
  intros Hk Hv. unfold visit. rewrite Hk.
  destruct (validateHeader_invalid w r Hv) as [Hs _].
  destruct (validateHeader w r) as [w' b]. simpl in *. subst b. reflexivity.
Qed.

Lemma visit_proceeds (w : ResponseWriter) (r : Request) (p : Params)
    (k : string) (v : list string) :
  proceeds k v = true -> exists p', visit w r p k v = Continue w p'.
Proof.
  unfold proceeds, visit. destruct (HasPrefix k "filter"); [discriminate|].
  destruct (HasPrefix k "fields").
  - destruct (qregx k) as [[m0 m1]|]; destruct v; try discriminate. eauto.
  - destruct (String.eqb k "include"); [|eauto].
    destruct v; try discriminate. eauto.
Qed.

(** An iteration that goes on has written nothing. *)
Lemma visit_Continue_writer (w w' : ResponseWriter) (r : Request) (p p' : Params)
    (k : string) (v : list string) :
  visit w r p k v = Continue w' p' -> w' = w.
Proof.
  unfold visit. destruct (HasPrefix k "filter").
  - destruct (validateHeader w r) as [w1 [|]] eqn:Hv; [|discriminate].
    apply validateHeader_true in Hv as [-> _].
    destruct (qregx k) as [[m0 m1]|]; destruct v; intros H; inversion H; reflexivity.
  - destruct (HasPrefix k "fields").
    + destruct (qregx k) as [[m0 m1]|]; destruct v; intros H; inversion H; reflexivity.
    + destruct (String.eqb k "include").
      * destruct v; intros H; inversion H; reflexivity.
      * intros H; inversion H; reflexivity.
Qed.

Lemma rangeValues_Continue_writer (r : Request) (values : list (string * list string)) :
  forall (w w' : ResponseWriter) (p p' : Params),
    rangeValues w r p values = Continue w' p' -> w' = w.
Proof.
  induction values as [|[k v] later IH]; simpl; intros w w' p p' H.
  - inversion H; reflexivity.
  - destruct (visit w r p k v) as [w1 p1| |] eqn:Hv; try discriminate.
    apply visit_Continue_writer in Hv as ->. eapply IH. exact H.
Qed.

(** With headers that fail validation, the first [filter]-prefixed key ends
    the loop, provided the entries before it let the loop reach it. *)
Lemma rangeValues_invalid_headers (w : ResponseWriter) (r : Request)
    (values : list (string * list string)) :
  valid_headers r = false ->
  Forall (fun kv => HasPrefix (fst kv) "filter" = true \/
                    proceeds (fst kv) (snd kv) = true) values ->
  Exists (fun kv => HasPrefix (fst kv) "filter" = true) values ->
  forall p, rangeValues w r p values = Return (fst (validateHeader w r)).
Proof.
  intros Hinv Hall Hex. induction values as [|[k v] later IH]; intros p.
  - inversion Hex.
  - inversion Hall as [|? ? Hhead Hlater]; subst. simpl in Hhead. simpl.
    destruct (HasPrefix k "filter") eqn:Hk.
    + rewrite (visit_filter_invalid w r p k v Hk Hinv). reflexivity.
    + destruct Hhead as [Hf|Hp]; [discriminate|].
      destruct (visit_proceeds w r p k v Hp) as [p' ->].
      apply IH; [exact Hlater|].
      inversion Hex as [? ? Hh|? ? Ht]; subst; [|exact Ht].
      simpl in Hh. congruence.
Qed.

(** An entry with a value and no malformed [fields] key either is
    [filter]-prefixed or lets the loop go on. *)
Lemma wellformed_proceeds (k : string) (v : list string) :
  v <> [] -> (HasPrefix k "fields" = true -> malformed k = false) ->
  HasPrefix k "filter" = true \/ proceeds k v = true.
Proof.
  intros Hv Hm. unfold proceeds, malformed in *.
  destruct (HasPrefix k "filter"); [left; reflexivity|right].
  destruct (HasPrefix k "fields").
  - specialize (Hm eq_refl). simpl in Hm.
    destruct (qregx k); [|discriminate]. destruct v; [contradiction|reflexivity].
  - destruct (String.eqb k "include"); [|reflexivity].
    destruct v; [contradiction|reflexivity].
Qed.


(** When header validation cannot stop the loop, the first malformed key
    does, with the 400 response that names its first value. *)
Lemma rangeValues_malformed (w : ResponseWriter) (r : Request)
    (values : list (string * list string)) :
  valid_headers r = true \/
    Forall (fun kv => HasPrefix (fst kv) "filter" = false) values ->
  parsed values ->
  Exists (fun kv => malformed (fst kv) = true) values ->
  forall p, exists k v0 rest,
    In (k, v0 :: rest) values /\ malformed k = true /\
    rangeValues w r p values = Return (bad_request w k v0).
Proof.
  intros Hhdr Hparsed Hex.
  induction values as [|[k v] later IH]; intros p; [inversion Hex|].
  inversion Hparsed as [|? ? Hv Hplater]; subst. simpl in Hv.
  destruct v as [|v0 rest]; [contradiction|].
  assert (Hhdr' : valid_headers r = true \/
            Forall (fun kv => HasPrefix (fst kv) "filter" = false) later).
  { destruct Hhdr as [H|H]; [left; exact H|right].
    inversion H; subst; assumption. }
  assert (Hgo : forall p', malformed k = false ->
            visit w r p k (v0 :: rest) = Continue w p' ->
            exists k1 v1 rest1,
              In (k1, v1 :: rest1) ((k, v0 :: rest) :: later) /\
              malformed k1 = true /\
              rangeValues w r p ((k, v0 :: rest) :: later) = Return (bad_request w k1 v1)).
  { intros p' Hm Hvis.
    assert (Hex' : Exists (fun kv => malformed (fst kv) = true) later).
    { inversion Hex as [? ? Hh|? ? Ht]; subst; [|exact Ht].
      simpl in Hh. congruence. }
    destruct (IH Hhdr' Hplater Hex' p') as (k1 & v1 & rest1 & Hin & Hm1 & Hrun).
    exists k1, v1, rest1. split; [right; exact Hin|]. split; [exact Hm1|].
    simpl. rewrite Hvis. exact Hrun. }
  assert (Hstop : malformed k = true ->
            visit w r p k (v0 :: rest) = Return (bad_request w k v0) ->
            exists k1 v1 rest1,
              In (k1, v1 :: rest1) ((k, v0 :: rest) :: later) /\
              malformed k1 = true /\
              rangeValues w r p ((k, v0 :: rest) :: later) = Return (bad_request w k1 v1)).
  { intros Hm Hvis. exists k, v0, rest.
    split; [left; reflexivity|]. split; [exact Hm|].
    simpl. rewrite Hvis. reflexivity. }
  unfold visit, malformed, bad_request, kind in *.
  destruct (HasPrefix k "filter") eqn:Hf.
  - assert (Hvalid : valid_headers r = true).
    { destruct Hhdr as [H|H]; [exact H|].
      inversion H; subst. simpl in *. congruence. }
    rewrite (validateHeader_valid w r Hvalid) in *.
    destruct (qregx k) as [[m0 m1]|].
    + eapply Hgo; reflexivity.
    + apply Hstop; reflexivity.
  - destruct (HasPrefix k "fields") eqn:Hd.
    + destruct (qregx k) as [[m0 m1]|].
      * eapply Hgo; reflexivity.
      * apply Hstop; reflexivity.
    + destruct (String.eqb k "include"); eapply Hgo; reflexivity.
Qed.

End queryLoop.

(** ** What the loop stores *)

Module queryStore.
Import GoString GoStringFacts Http HttpFacts query queryShape queryFacts queryLoop.

(** An iteration over a key that does not capture [sub] leaves
    [Filters[sub]] alone. *)
Lemma visit_Filters_other (w w' : ResponseWriter) (r : Request) (p p' : Params)
    (k sub : string) (v : list string) :
  visit w r p k v = Continue w' p' -> captures k sub = false ->
  Filters p' !! sub = Filters p !! sub.
Proof.
  unfold visit, captures. destruct (HasPrefix k "filter").
  - destruct (validateHeader w r) as [w1 [|]]; [|discriminate].
    destruct (qregx k) as [[m0 m1]|]; destruct v; try discriminate.
    intros H Hc. inversion H; subst. simpl in *.
    apply String.eqb_neq in Hc. apply lookup_insert_ne. exact Hc.
  - destruct (HasPrefix k "fields").
    + destruct (qregx k) as [[m0 m1]|]; destruct v; try discriminate.
      intros H _. inversion H; reflexivity.
    + destruct (String.eqb k "include").
      * destruct v; try discriminate. intros H _. inversion H; reflexivity.
      * intros H _. inversion H; reflexivity.
Qed.

(** An iteration over a key that captures [sub] stores the first value,
    whole, under [sub], and raises [HasFilters]. *)
Lemma visit_Filters_capture (w w' : ResponseWriter) (r : Request) (p p' : Params)
    (k sub : string) (v : list string) :
  visit w r p k v = Continue w' p' -> captures k sub = true ->
  exists v0 rest, v = v0 :: rest /\ Filters p' !! sub = Some v0 /\
                  HasFilters p' = true.
Proof.
  unfold visit, captures. destruct (HasPrefix k "filter"); [|discriminate].
  destruct (validateHeader w r) as [w1 [|]]; [|discriminate].
  destruct (qregx k) as [[m0 m1]|]; destruct v as [|v0 rest]; try discriminate.
  intros H Hc. inversion H; subst. simpl in *.
  apply String.eqb_eq in Hc. subst m1.
  exists v0, rest. split; [reflexivity|]. split; [apply lookup_insert_eq|reflexivity].
Qed.

Lemma visit_HasFilters_mono (w w' : ResponseWriter) (r : Request) (p p' : Params)
    (k : string) (v : list string) :
  visit w r p k v = Continue w' p' -> HasFilters p = true -> HasFilters p' = true.
Proof.
  unfold visit. destruct (HasPrefix k "filter").
  - destruct (validateHeader w r) as [w1 [|]]; [|discriminate].
    destruct (qregx k) as [[m0 m1]|]; destruct v; try discriminate.
    intros H _. inversion H; reflexivity.
  - destruct (HasPrefix k "fields").
    + destruct (qregx k) as [[m0 m1]|]; destruct v; try discriminate.
      intros H Hp. inversion H; subst. exact Hp.
    + destruct (String.eqb k "include").
      * destruct v; try discriminate. intros H Hp. inversion H; subst. exact Hp.
      * intros H Hp. inversion H; subst. exact Hp.
Qed.

Lemma rangeValues_HasFilters_mono (r : Request) (values : list (string * list string)) :
  forall (w w' : ResponseWriter) (p p' : Params),
    rangeValues w r p values = Continue w' p' ->
    HasFilters p = true -> HasFilters p' = true.
Proof.
  induction values as [|[k v] later IH]; simpl; intros w w' p p' H Hp.
  - inversion H; subst. exact Hp.
  - destruct (visit w r p k v) as [w1 p1| |] eqn:Hv; try discriminate.
    eapply IH; [exact H|]. eapply visit_HasFilters_mono; eassumption.
Qed.

(** Once [Filters[sub]] holds [x], it holds [x] at the end of the loop when
    every later key capturing [sub] carries [x] as its first value. *)
Lemma rangeValues_Filters_keep (r : Request) (sub x : string)
    (values : list (string * list string)) :
  Forall (fun kv => captures (fst kv) sub = true -> head (snd kv) = Some x) values ->
  forall (w w' : ResponseWriter) (p p' : Params),
    rangeValues w r p values = Continue w' p' ->
    Filters p !! sub = Some x -> Filters p' !! sub = Some x.
Proof.
  induction values as [|[k v] later IH]; simpl; intros Hall w w' p p' H Hp.
  - inversion H; subst. exact Hp.
  - inversion Hall as [|? ? Hhead Hlater]; subst. simpl in Hhead.
    destruct (visit w r p k v) as [w1 p1| |] eqn:Hv; try discriminate.
    eapply IH; [exact Hlater|exact H|].
    destruct (captures k sub) eqn:Hc.
    + destruct (visit_Filters_capture _ _ _ _ _ _ _ _ Hv Hc) as (v0 & rest & -> & Hl & _).
      specialize (Hhead eq_refl). simpl in Hhead. inversion Hhead; subst. exact Hl.
    + rewrite (visit_Filters_other _ _ _ _ _ _ _ _ Hv Hc). exact Hp.
Qed.

(** A key capturing [sub] that the loop visits leaves its first value under
    [sub], when the keys capturing [sub] agree on that value. *)
Lemma rangeValues_Filters_stored (r : Request) (k sub x : string) (rest : list string)
    (values : list (string * list string)) :
  Forall (fun kv => captures (fst kv) sub = true -> head (snd kv) = Some x) values ->
  In (k, x :: rest) values -> captures k sub = true ->
  forall (w w' : ResponseWriter) (p p' : Params),
    rangeValues w r p values = Continue w' p' ->
    Filters p' !! sub = Some x /\ HasFilters p' = true.
Proof.
  induction values as [|[k1 v1] later IH]; simpl; intros Hall Hin Hc w w' p p' H.
  - contradiction.
  - inversion Hall as [|? ? Hhead Hlater]; subst. simpl in Hhead.
    destruct (visit w r p k1 v1) as [w1 p1| |] eqn:Hv; try discriminate.
    destruct Hin as [Heq|Hin].
    + inversion Heq; subst.
      destruct (visit_Filters_capture _ _ _ _ _ _ _ _ Hv Hc) as (v0 & rest0 & Hv0 & Hl & Hh).
      inversion Hv0; subst. split.
      * eapply rangeValues_Filters_keep; eassumption.
      * eapply rangeValues_HasFilters_mono; eassumption.
    + eapply IH; eassumption.
Qed.

(** Whatever the loop leaves under [sub] was there before, or is the first
    value of a key that captures [sub]. *)
Lemma rangeValues_Filters_origin (r : Request) (sub x : string)
    (values : list (string * list string)) :
  forall (w w' : ResponseWriter) (p p' : Params),
    rangeValues w r p values = Continue w' p' ->
    Filters p' !! sub = Some x ->
    Filters p !! sub = Some x \/
    exists k rest, In (k, x :: rest) values /\ captures k sub = true.
Proof.
  induction values as [|[k v] later IH]; simpl; intros w w' p p' H Hp.
  - inversion H; subst. left. exact Hp.
  - destruct (visit w r p k v) as [w1 p1| |] eqn:Hv; try discriminate.
    destruct (IH _ _ _ _ H Hp) as [Hp1|(k2 & rest2 & Hin & Hc2)].
    + destruct (captures k sub) eqn:Hc.
      * destruct (visit_Filters_capture _ _ _ _ _ _ _ _ Hv Hc) as (v0 & rest & -> & Hl & _).
        right. exists k, rest. split; [left|exact Hc].
        rewrite Hl in Hp1. inversion Hp1; reflexivity.
      * left. rewrite <- (visit_Filters_other _ _ _ _ _ _ _ _ Hv Hc). exact Hp1.
    + right. exists k2, rest2. split; [right; exact Hin|exact Hc2].
Qed.

(** The bundle of a request to which [newFn] attached [p]. *)
Lemma bundle_WithValue (r : Request) (p : Params) :
  bundle (WithContext r (WithValue (r_Context r) ContextKeyQueryParams (ParamsValue p)))
    = Some p.
Proof.
  unfold bundle, WithContext, WithValue. simpl.
  destruct (decide (ContextKeyQueryParams = ContextKeyQueryParams)); [reflexivity|contradiction].
Qed.

(** [newFn] read off the result of the loop. *)
Lemma newFn_Forwarded (w w' : ResponseWriter) (r r' : Request) :
  newFn w r = Forwarded w' r' ->
  exists p, rangeValues w r newParams (r_Query r) = Continue w p /\ w' = w /\
    ((HasFilters p || HasFields p || HasIncludes p = true /\
      r' = WithContext r (WithValue (r_Context r) ContextKeyQueryParams (ParamsValue p))) \/
     (HasFilters p || HasFields p || HasIncludes p = false /\ r' = r)).
Proof.
  unfold newFn.
  destruct (rangeValues w r newParams (r_Query r)) as [w1 p| |] eqn:Hrun; try discriminate.
  pose proof (rangeValues_Continue_writer _ _ _ _ _ _ Hrun) as ->.
  intros H. exists p. split; [reflexivity|].
  destruct (HasFilters p || HasFields p || HasIncludes p) eqn:Hflags;
    inversion H; subst; auto.
Qed.

Lemma newFn_Return (w w' : ResponseWriter) (r : Request) :
  rangeValues w r newParams (r_Query r) = Return w' -> newFn w r = Terminated w'.
Proof. unfold newFn. intros ->. reflexivity. Qed.

(** A terminated request never reaches the wrapped handler. *)
Lemma MiddlewareFn_Terminated (w w' : ResponseWriter) (r : Request) :
  newFn w r = Terminated w' -> forall fn, MiddlewareFn fn w r = Some w'.
Proof. unfold MiddlewareFn. intros -> fn. reflexivity. Qed.

Lemma MiddlewareFn_Forwarded (w w' : ResponseWriter) (r r' : Request) :
  newFn w r = Forwarded w' r' -> forall fn, MiddlewareFn fn w r = fn w' r'.
Proof. unfold MiddlewareFn. intros -> fn. reflexivity. Qed.

End queryStore.

(** * The cache middleware *)

Import GoString Http cache.

Lemma thirty_day_units (day : Z) :
  -3558 <= day <= 3558 ->
  Time.Seconds (Time.mul (Time.mul (Time.mul Time.Hour 24) 30) day)
    = seconds_in_days (30 * day).
Proof.
  intros Hday.
  change (Time.mul (Time.mul Time.Hour 24) 30) with 2592000000000000.
  unfold Time.mul, Time.wrap64, Time.Seconds, Time.Second, seconds_in_days.
  replace ((2592000000000000 * day + 2 ^ 63) mod 2 ^ 64 - 2 ^ 63)
    with (2592000 * day * 1000000000).
  - rewrite Z.quot_mul by lia. lia.
  - rewrite Z.mod_small by lia. lia.
Qed.

(** Where the duration does not overflow, [NewHTTPCache(day, t)] counts
    [day] in units of thirty days: [max-age] is the number of seconds in
    [30 * day] days, and [Expires] is [t] itself in the HTTP date format.
    The handler sets both headers and calls [next]. *)
Theorem Handler_sets_max_age_and_expires (Request : Type) (day : Z) (t : Time.Time)
    (next : ResponseWriter -> Request -> ResponseWriter)
    (w : ResponseWriter) (r : Request) :
  -3558 <= day <= 3558 ->
  MaxAge (NewHTTPCache day t) = seconds_in_days (30 * day) /\
  Expires (NewHTTPCache day t) = Time.FormatHTTP t /\
  Handler Request (NewHTTPCache day t) next w r =
    next (HeaderSet
            (HeaderSet w "Cache-Control"
               ("public, max-age=" +:+ Itoa (seconds_in_days (30 * day))))
            "Expires" (Time.FormatHTTP t)) r.
Proof.
  intros Hday. unfold Handler, NewHTTPCache. simpl.
  rewrite (thirty_day_units day Hday). auto.
Qed.

Lemma Handler_sets_max_age_and_expires_witness :
  -3558 <= 1 <= 3558 /\
  MaxAge (NewHTTPCache 1 (Time.UTC 0)) = seconds_in_days (30 * 1) /\
  Expires (NewHTTPCache 1 (Time.UTC 0)) = Time.FormatHTTP (Time.UTC 0) /\
  Handler unit (NewHTTPCache 1 (Time.UTC 0)) (fun w _ => w) (fresh []) tt =
    (fun w _ => w)
      (HeaderSet
         (HeaderSet (fresh []) "Cache-Control"
            ("public, max-age=" +:+ Itoa (seconds_in_days (30 * 1))))
         "Expires" (Time.FormatHTTP (Time.UTC 0))) tt.
Proof.
  split; [lia|].
  apply (Handler_sets_max_age_and_expires unit 1 (Time.UTC 0) (fun w _ => w) (fresh []) tt).
  lia.
Defined.

(** Thirty days, as a [time.Duration]. *)
Definition thirty_days : Z := Time.mul (Time.mul Time.Hour 24) 30.

(** C2, at the reference time of the epoch, in UTC and in a zone eight
    hours west of it.  The constructor computes a duration and uses it for
    [max-age] only: whatever [day] is, [Expires] is the reference time
    itself, not the reference time plus the duration.  Built for one
    thirty-day unit ([day = 1]), the handler sends the right [max-age],
    2592000, with an [Expires] thirty days short of it; built with
    [day = 30], it also sends the seconds of nine hundred days. *)
Theorem Handler_expires_is_not_thirty_days_later :
  (forall day t, Expires (NewHTTPCache day t) = Time.FormatHTTP t) /\
  (let w' := Handler unit (NewHTTPCache 1 (Time.UTC 0)) (fun w _ => w) (fresh []) tt in
   Get (w_Header w') "Cache-Control" = "public, max-age=2592000" /\
   seconds_in_days 30 = 2592000 /\
   Get (w_Header w') "Expires" = "Thu, 01 Jan 1970 00:00:00 GMT" /\
   Time.FormatHTTP (Time.Add (Time.UTC 0) thirty_days)
     = "Sat, 31 Jan 1970 00:00:00 GMT") /\
  (let t := Time.mkTime 0 (-28800) in
   let w' := Handler unit (NewHTTPCache 1 t) (fun w _ => w) (fresh []) tt in
   Get (w_Header w') "Expires" = "Wed, 31 Dec 1969 16:00:00 GMT" /\
   Time.FormatHTTP (Time.Add t thirty_days) = "Fri, 30 Jan 1970 16:00:00 GMT") /\
  (let w' := Handler unit (NewHTTPCache 30 (Time.UTC 0)) (fun w _ => w) (fresh []) tt in
   Get (w_Header w') "Cache-Control" = "public, max-age=77760000" /\
   Get (w_Header w') "Expires" = "Thu, 01 Jan 1970 00:00:00 GMT").
Proof.
  split; [reflexivity|]. vm_compute. repeat split.
Qed.

(** * The query middleware: header validation *)

Import query queryShape queryFacts queryLoop queryStore.

(** C1, at the request the specification describes: the [Accept] and
    [Content-Type] headers carry the media type with its quoted parameter
    and nothing around it.  [filterMediaType] is [strconv.Quote] of that
    text, a different string, so the request is turned down with 406. *)
Theorem accept_media_type_literal_is_rejected :
  let r := request [("filter[name]", ["foo"])]
             (headers filterMediaType_literal filterMediaType_literal) in
  Get (r_Header r) acceptH = filterMediaType_literal /\
  filterMediaType <> filterMediaType_literal /\
  newFn (fresh []) r = Terminated (not_acceptable (fresh []) r) /\
  w_Code (not_acceptable (fresh []) r) = 406.
Proof.
  vm_compute. repeat split. discriminate.
Qed.

(** Only the Go literal of the media type passes the first check. *)
Lemma validateHeader_accepts_quoted_only (w : ResponseWriter) (r : Request) :
  snd (validateHeader w r) = true ->
  Get (r_Header r) acceptH = Quote filterMediaType_literal.
Proof.
  intros H. destruct (validateHeader w r) as [w' b] eqn:Hv. simpl in H. subst b.
  apply validateHeader_true in Hv as [_ Hv].
  unfold valid_headers in Hv. apply andb_true_iff in Hv as [Ha _].
  apply String.eqb_eq in Ha. exact Ha.
Qed.

Lemma visit_no_panic (w : ResponseWriter) (r : Request) (p : Params)
    (k : string) (v : list string) :
  v <> [] -> visit w r p k v <> IndexPanic.
Proof.
  intros Hv. destruct v as [|v0 rest]; [contradiction|].
  unfold visit. destruct (HasPrefix k "filter").
  - destruct (validateHeader w r) as [w1 [|]]; [|discriminate].
    destruct (qregx k) as [[m0 m1]|]; discriminate.
  - destruct (HasPrefix k "fields").
    + destruct (qregx k) as [[m0 m1]|]; discriminate.
    + destruct (String.eqb k "include"); discriminate.
Qed.

(** With headers that fail validation and a [filter]-prefixed key among
    the entries, the loop always ends in a [return]. *)
Lemma rangeValues_invalid_headers_stops (w : ResponseWriter) (r : Request)
    (values : list (string * list string)) :
  valid_headers r = false -> parsed values ->
  Exists (fun kv => HasPrefix (fst kv) "filter" = true) values ->
  forall p, exists w', rangeValues w r p values = Return w'.
Proof.
  intros Hinv Hparsed Hex.
  induction values as [|[k v] later IH]; intros p; [inversion Hex|].
  inversion Hparsed as [|? ? Hv Hplater]; subst. simpl in Hv. simpl.
  destruct (HasPrefix k "filter") eqn:Hk.
  - rewrite (visit_filter_invalid w r p k v Hk Hinv). eauto.
  - pose proof (visit_no_panic w r p k v Hv) as Hnp.
    destruct (visit w r p k v) as [w1 p1|w1|] eqn:Hvis; [|eauto|contradiction].
    apply visit_Continue_writer in Hvis as ->.
    apply IH; [exact Hplater|].
    inversion Hex as [? ? Hh|? ? Ht]; subst; [|exact Ht].
    simpl in Hh. congruence.
Qed.

Lemma not_acceptable_invalid (r : Request) :
  Get (r_Header r) acceptH <> filterMediaType -> valid_headers r = false.
Proof.
  intros H. unfold valid_headers. apply String.eqb_neq in H. rewrite H. reflexivity.
Qed.

Lemma unsupported_invalid (r : Request) :
  Get (r_Header r) contentType <> Get (r_Header r) acceptH -> valid_headers r = false.
Proof.
  intros H. unfold valid_headers.
  assert (H' : Get (r_Header r) acceptH <> Get (r_Header r) contentType) by congruence.
  apply String.eqb_neq in H'. rewrite H'. apply andb_false_r.
Qed.

(** C3, as the code has it by design.  For a request with a
    [filter]-prefixed key and a value for every key, on a writer whose
    header is not out yet: when the [Accept] header is neither the media
    type the package asks for nor the text the code compares it with
    ([filterMediaType], its Go literal), the wrapped handler is not
    called, and the response is 406 when no [fields]-prefixed key of the
    request fails the bracket pattern (such a key, visited first, gives
    400); when the [Accept] header is that media type and [Content-Type]
    differs from it, the wrapped handler is not called either. *)
Theorem filter_key_with_unacceptable_headers (w : ResponseWriter) (r : Request) :
  w_wroteHeader w = false ->
  parsed (r_Query r) ->
  Exists (fun kv => HasPrefix (fst kv) "filter" = true) (r_Query r) ->
  (Get (r_Header r) acceptH <> filterMediaType_literal ->
   Get (r_Header r) acceptH <> filterMediaType ->
     (exists w', newFn w r = Terminated w' /\
                 forall fn, MiddlewareFn fn w r = Some w') /\
     (Forall (fun kv => HasPrefix (fst kv) "fields" = true -> malformed (fst kv) = false)
             (r_Query r) ->
        newFn w r = Terminated (not_acceptable w r) /\
        (forall fn, MiddlewareFn fn w r = Some (not_acceptable w r)) /\
        w_Code (not_acceptable w r) = 406)) /\
  (Get (r_Header r) acceptH = filterMediaType_literal ->
   Get (r_Header r) contentType <> Get (r_Header r) acceptH ->
     exists w', newFn w r = Terminated w' /\
                forall fn, MiddlewareFn fn w r = Some w').
Proof.
  intros Hw Hparsed Hex.
  assert (Hstop : valid_headers r = false ->
            exists w', newFn w r = Terminated w' /\
                       forall fn, MiddlewareFn fn w r = Some w').
  { intros Hinv.
    destruct (rangeValues_invalid_headers_stops w r _ Hinv Hparsed Hex newParams)
      as [w' Hrun].
    exists w'. pose proof (newFn_Return w w' r Hrun) as Hn.
    split; [exact Hn|]. apply MiddlewareFn_Terminated. exact Hn. }
  split.
  - intros _ Ha. split; [apply Hstop; apply not_acceptable_invalid; exact Ha|].
    intros Hfields.
    assert (Hall : Forall (fun kv => HasPrefix (fst kv) "filter" = true \/
                                     proceeds (fst kv) (snd kv) = true) (r_Query r)).
    { unfold parsed in Hparsed. rewrite Forall_forall in *.
      intros [k v] Hin. simpl.
      apply wellformed_proceeds; [exact (Hparsed _ Hin)|exact (Hfields _ Hin)]. }
    assert (Hn : newFn w r = Terminated (not_acceptable w r)).
    { apply newFn_Return.
      rewrite (rangeValues_invalid_headers w r _ (not_acceptable_invalid r Ha) Hall Hex).
      rewrite (validateHeader_not_acceptable w r Ha). reflexivity. }
    split; [exact Hn|]. split; [apply MiddlewareFn_Terminated; exact Hn|].
    apply (queryParamError_Code w _ _ _ Hw).
  - intros Ha _. apply Hstop. apply not_acceptable_invalid.
    rewrite Ha. intros Heq. symmetry in Heq.
    exact (filterMediaType_not_literal Heq).
Qed.

Lemma filter_key_with_unacceptable_headers_witness :
  let w := fresh [] in
  let r := request [("filter[name]", ["foo"])] (headers "text/html" "text/html") in
  (w_wroteHeader w = false /\ parsed (r_Query r) /\
   Exists (fun kv => HasPrefix (fst kv) "filter" = true) (r_Query r)) /\
  newFn w r = Terminated (not_acceptable w r) /\
  (forall fn, MiddlewareFn fn w r = Some (not_acceptable w r)) /\
  w_Code (not_acceptable w r) = 406.
Proof.
  intros w r.
  assert (H1 : w_wroteHeader w = false) by reflexivity.
  assert (H2 : parsed (r_Query r)) by (repeat constructor; discriminate).
  assert (H3 : Exists (fun kv => HasPrefix (fst kv) "filter" = true) (r_Query r))
    by (left; reflexivity).
  split; [auto|].
  apply (proj1 (filter_key_with_unacceptable_headers w r H1 H2 H3)).
  - vm_compute. discriminate.
  - vm_compute. discriminate.
  - repeat constructor; discriminate.
Defined.

(** C3, as the specification has it, fails on a request that also carries
    a malformed [fields] key, when the loop visits that key first: a
    [filter]-prefixed key is there and the [Accept] header is wrong, for
    the package and for the code alike, yet the response is 400. *)
Lemma filter_key_after_malformed_fields_key :
  let w := fresh [] in
  let r := request [("fieldsX", ["1"]); ("filter[name]", ["foo"])]
             (headers "text/html" "text/html") in
  In ("filter[name]", ["foo"]) (r_Query r) /\
  HasPrefix "filter[name]" "filter" = true /\
  String.eqb (Get (r_Header r) acceptH) filterMediaType_literal = false /\
  String.eqb (Get (r_Header r) acceptH) filterMediaType = false /\
  newFn w r = Terminated (bad_request w "fieldsX" "1") /\
  w_Code (bad_request w "fieldsX" "1") = 400 /\
  Z.eqb (w_Code (bad_request w "fieldsX" "1")) 406 = false.
Proof.
  vm_compute. repeat split. right. left. reflexivity.
Qed.

(** * The query middleware: parsing *)

(** C4, at the request the claim describes.  With the media type the
    package asks for in [Accept] and in [Content-Type], the request
    [?filter[name]=foo] is answered with 406 and the wrapped handler is not
    called: the code compares the headers with the Go literal of the media
    type.  The rest of the path is there: with that literal in both headers
    the request is forwarded, with [Filters["name"]] set to [foo] and
    [HasFilters] true in the bundle under [ContextKeyQueryParams]. *)
Theorem filter_name_foo_with_the_media_type_is_rejected
    (w : ResponseWriter) (fn : HandlerFunc) :
  (let r := request [("filter[name]", ["foo"])]
              (headers filterMediaType_literal filterMediaType_literal) in
   Get (r_Header r) acceptH = filterMediaType_literal /\
   Get (r_Header r) contentType = filterMediaType_literal /\
   newFn w r = Terminated (not_acceptable w r) /\
   MiddlewareFn fn w r = Some (not_acceptable w r) /\
   (w_wroteHeader w = false -> w_Code (not_acceptable w r) = 406)) /\
  (let r := request [("filter[name]", ["foo"])]
              (headers filterMediaType filterMediaType) in
   let p := mkParams [] ∅ (<["name" := "foo"]> ∅) false false true in
   let r' := WithContext r (WithValue (r_Context r) ContextKeyQueryParams (ParamsValue p)) in
   newFn w r = Forwarded w r' /\
   MiddlewareFn fn w r = fn w r' /\
   bundle r' = Some p /\
   Filters p !! "name" = Some "foo" /\ HasFilters p = true).
Proof.
  split.
  - intros r.
    assert (Ha : Get (r_Header r) acceptH <> filterMediaType)
      by (vm_compute; discriminate).
    assert (Hn : newFn w r = Terminated (not_acceptable w r)).
    { apply newFn_Return. change (r_Query r) with [("filter[name]", ["foo"])].
      simpl rangeValues.
      rewrite (visit_filter_invalid w r newParams "filter[name]" ["foo"] eq_refl
                 (not_acceptable_invalid r Ha)).
      rewrite (validateHeader_not_acceptable w r Ha). reflexivity. }
    split; [reflexivity|]. split; [reflexivity|]. split; [exact Hn|].
    split; [apply MiddlewareFn_Terminated; exact Hn|].
    intros Hw. apply (queryParamError_Code w _ _ _ Hw).
  - intros r p r'.
    assert (Hvalid : valid_headers r = true) by reflexivity.
    assert (Hn : newFn w r = Forwarded w r').
    { unfold newFn. change (r_Query r) with [("filter[name]", ["foo"])].
      unfold rangeValues, visit.
      change (HasPrefix "filter[name]" "filter") with true. cbv iota.
      rewrite (validateHeader_valid w r Hvalid).
      change (qregx "filter[name]") with (Some ("filter[name]", "name")).
      reflexivity. }
    split; [exact Hn|]. split; [apply MiddlewareFn_Forwarded; exact Hn|].
    split; [apply bundle_WithValue|]. split; [apply lookup_insert_eq|reflexivity].
Qed.

(** C5, as the code has it.  On a writer whose header is not out yet, a
    request with a [fields]- or [filter]-prefixed key that fails the
    bracket pattern is answered with 400, the title
    [Invalid query parameter] and a detail that names the first value of
    the malformed key the loop meets first, and the wrapped handler is
    not called, when header validation cannot stop the loop: the headers
    are valid, or no key of the request is [filter]-prefixed. *)
Theorem malformed_key_is_bad_request (w : ResponseWriter) (r : Request) :
  w_wroteHeader w = false ->
  parsed (r_Query r) ->
  valid_headers r = true \/
    Forall (fun kv => HasPrefix (fst kv) "filter" = false) (r_Query r) ->
  Exists (fun kv => malformed (fst kv) = true) (r_Query r) ->
  exists k v0 rest,
    In (k, v0 :: rest) (r_Query r) /\ malformed k = true /\
    newFn w r =
      Terminated (queryParamError w StatusBadRequest "Invalid query parameter"
                    ("Unable to match " +:+ kind k +:+ " query param " +:+ v0)) /\
    (forall fn, MiddlewareFn fn w r = Some (bad_request w k v0)) /\
    w_Code (bad_request w k v0) = 400.
Proof.
  intros Hw Hparsed Hhdr Hex.
  destruct (rangeValues_malformed w r _ Hhdr Hparsed Hex newParams)
    as (k & v0 & rest & Hin & Hm & Hrun).
  exists k, v0, rest. split; [exact Hin|]. split; [exact Hm|].
  pose proof (newFn_Return w _ r Hrun) as Hn.
  split; [exact Hn|]. split; [apply MiddlewareFn_Terminated; exact Hn|].
  apply (queryParamError_Code w _ _ _ Hw).
Qed.

Lemma malformed_key_is_bad_request_witness :
  let w := fresh [] in
  let r := request [("fieldsX", ["title"])] (headers "text/html" "text/html") in
  (w_wroteHeader w = false /\ parsed (r_Query r) /\
   Forall (fun kv => HasPrefix (fst kv) "filter" = false) (r_Query r) /\
   Exists (fun kv => malformed (fst kv) = true) (r_Query r)) /\
  exists k v0 rest,
    In (k, v0 :: rest) (r_Query r) /\ malformed k = true /\
    newFn w r =
      Terminated (queryParamError w StatusBadRequest "Invalid query parameter"
                    ("Unable to match " +:+ kind k +:+ " query param " +:+ v0)) /\
    (forall fn, MiddlewareFn fn w r = Some (bad_request w k v0)) /\
    w_Code (bad_request w k v0) = 400.
Proof.
  intros w r.
  assert (H1 : w_wroteHeader w = false) by reflexivity.
  assert (H2 : parsed (r_Query r)) by (repeat constructor; discriminate).
  assert (H3 : Forall (fun kv => HasPrefix (fst kv) "filter" = false) (r_Query r))
    by (repeat constructor).
  assert (H4 : Exists (fun kv => malformed (fst kv) = true) (r_Query r))
    by (left; reflexivity).
  split; [auto|].
  apply (malformed_key_is_bad_request w r H1 H2 (or_intror H3) H4).
Defined.

(** C5, as the specification has it, fails on a request that carries a
    malformed [fields] key next to a [filter]-prefixed key and has a wrong
    [Accept] header, when the loop visits the [filter] key first: the
    response is 406. *)
Lemma malformed_fields_key_after_filter_key :
  let w := fresh [] in
  let r := request [("filter[a]", ["b"]); ("fieldsX", ["1"])]
             (headers "text/html" "text/html") in
  In ("fieldsX", ["1"]) (r_Query r) /\
  HasPrefix "fieldsX" "fields" = true /\ qregx "fieldsX" = None /\
  newFn w r = Terminated (not_acceptable w r) /\
  w_Code (not_acceptable w r) = 406 /\
  Z.eqb (w_Code (not_acceptable w r)) 400 = false.
Proof.
  vm_compute. repeat split. right. left. reflexivity.
Qed.

(** * The query middleware: the error response *)

(** C6, where the write of the error document fails.  [queryParamError]
    has called [WriteHeader(status)] before it encodes, so the status and
    the [Content-Type] of the JSON-API are already out when [http.Error]
    asks for 500 and plain text: the response keeps [status] and
    [application/vnd.api+json], and no document is in its body. *)
Theorem queryParamError_failed_write (status : Z) (title detail msg : string)
    (later : list (option string)) :
  let w' := queryParamError (fresh (Some msg :: later)) status title detail in
  w_Code w' = status /\
  w_sent w' !! "Content-Type" = Some ["application/vnd.api+json"] /\
  w_Header w' !! "Content-Type" = Some ["text/plain; charset=utf-8"] /\
  (w_Body w' = [] \/ w_Body w' = [Line msg]).
Proof.
  unfold queryParamError, Encode, Write, Error, Write, WriteHeader, HeaderSet,
    fresh, Set_. simpl.
  change (CanonicalHeaderKey "Content-Type") with "Content-Type".
  change (CanonicalHeaderKey "X-Content-Type-Options") with "X-Content-Type-Options".
  split; [|split; [|split]].
  - destruct later as [|[e|] later']; reflexivity.
  - destruct later as [|[e|] later']; apply lookup_insert_eq.
  - assert (Hl : (<["X-Content-Type-Options" := ["nosniff"]]>
                   (<["Content-Type" := ["text/plain; charset=utf-8"]]>
                     (<["Content-Type" := ["application/vnd.api+json"]]>
                       (∅ : gmap string (list string)))))
                  !! "Content-Type" = Some ["text/plain; charset=utf-8"]).
    { rewrite lookup_insert_ne by discriminate. apply lookup_insert_eq. }
    destruct later as [|[e|] later']; exact Hl.
  - destruct later as [|[e|] later']; simpl; auto.
Qed.

(** The response in the ordinary case: one error object, under [errors]. *)
Lemma queryParamError_response (w : ResponseWriter) (status : Z) (title detail : string) :
  w_wroteHeader w = false -> w_Body w = [] ->
  (forall msg, head (w_faults w) <> Some (Some msg)) ->
  title <> EmptyString -> detail <> EmptyString ->
  let w' := queryParamError w status title detail in
  w_Code w' = status /\
  w_sent w' !! "Content-Type" = Some ["application/vnd.api+json"] /\
  w_Body w' = [Json (error_document status title detail)].
Proof.
  intros Hw Hb Hok Ht Hd w'. subst w'.
  rewrite (queryParamError_written w status title detail Hw Hok Ht Hd). simpl.
  rewrite Hb. split; [reflexivity|]. split; [|reflexivity].
  unfold Set_. change (CanonicalHeaderKey "Content-Type") with "Content-Type".
  apply lookup_insert_eq.
Qed.

(** * The query middleware: forwarding *)

Lemma cons_not_self {A : Type} (x : A) (l : list A) : l <> x :: l.
Proof.
  intros H. apply (f_equal (@length A)) in H. simpl in H. lia.
Qed.

(** C7: a request that [newFn] forwards carries the bundle of the loop,
    under [ContextKeyQueryParams], exactly when one of the three flags is
    raised; when none is, the request and the writer go on as they came. *)
Theorem bundle_attached_iff_flag (w w' : ResponseWriter) (r r' : Request) :
  newFn w r = Forwarded w' r' ->
  exists p,
    rangeValues w r newParams (r_Query r) = Continue w p /\ w' = w /\
    (r_Context r' = WithValue (r_Context r) ContextKeyQueryParams (ParamsValue p)
       <-> HasFilters p || HasFields p || HasIncludes p = true) /\
    (HasFilters p || HasFields p || HasIncludes p = true ->
       r' = WithContext r (WithValue (r_Context r) ContextKeyQueryParams (ParamsValue p)) /\
       bundle r' = Some p) /\
    (HasFilters p || HasFields p || HasIncludes p = false ->
       r' = r /\ bundle r' = bundle r).
Proof.
  intros H. destruct (newFn_Forwarded w w' r r' H) as (p & Hrun & Hw & Hcase).
  exists p. split; [exact Hrun|]. split; [exact Hw|].
  destruct Hcase as [[Hflag ->]|[Hflag ->]].
  - split; [split; [intros _; exact Hflag|intros _; reflexivity]|].
    split; [intros _; split; [reflexivity|apply bundle_WithValue]|].
    rewrite Hflag. discriminate.
  - split; [split|].
    + intros Hctx. exfalso. eapply cons_not_self. exact Hctx.
    + rewrite Hflag. discriminate.
    + split; [rewrite Hflag; discriminate|]. intros _. split; reflexivity.
Qed.

Lemma bundle_attached_iff_flag_witness :
  let w := fresh [] in
  let r := request [("page", ["2"])] (headers "text/html" "text/html") in
  newFn w r = Forwarded w r /\
  exists p,
    rangeValues w r newParams (r_Query r) = Continue w p /\ w = w /\
    (r_Context r = WithValue (r_Context r) ContextKeyQueryParams (ParamsValue p)
       <-> HasFilters p || HasFields p || HasIncludes p = true) /\
    (HasFilters p || HasFields p || HasIncludes p = true ->
       r = WithContext r (WithValue (r_Context r) ContextKeyQueryParams (ParamsValue p)) /\
       bundle r = Some p) /\
    (HasFilters p || HasFields p || HasIncludes p = false ->
       r = r /\ bundle r = bundle r).
Proof.
  intros w r.
  assert (H : newFn w r = Forwarded w r) by reflexivity.
  split; [exact H|].
  apply (bundle_attached_iff_flag w w r r H).
Defined.



(** Without a [filter]-prefixed key the loop never reads the request
    headers: two requests that differ in their headers only run alike. *)
Lemma rangeValues_ignores_headers (w : ResponseWriter) (r1 r2 : Request)
    (values : list (string * list string)) :
  Forall (fun kv => HasPrefix (fst kv) "filter" = false) values ->
  forall p, rangeValues w r1 p values = rangeValues w r2 p values.
Proof.
  induction values as [|[k v] later IH]; intros Hall p; [reflexivity|].
  inversion Hall as [|? ? Hk Hlater]; subst. simpl in Hk. simpl.
  assert (Hv : visit w r1 p k v = visit w r2 p k v).
  { unfold visit. rewrite Hk. reflexivity. }
  rewrite Hv. destruct (visit w r2 p k v) as [w1 p1| |] eqn:Hvis; try reflexivity.
  apply visit_Continue_writer in Hvis as ->. apply IH. exact Hlater.
Qed.

(** C9: the request [?fields[articles]=title,body] is forwarded with a
    bundle in which [Fields["articles"]] is [title; body] and [HasFields]
    is true, whatever its headers and its writer are: nothing is validated
    and nothing is written. *)
Theorem fields_articles_is_forwarded (w : ResponseWriter) (h : Header) (ctx : Context) :
  let r := mkRequest [("fields[articles]", ["title,body"])] h ctx in
  let p := mkParams [] (<["articles" := ["title"; "body"]]> ∅) ∅ true false false in
  let r' := WithContext r (WithValue ctx ContextKeyQueryParams (ParamsValue p)) in
  newFn w r = Forwarded w r' /\
  (forall fn, MiddlewareFn fn w r = fn w r') /\
  bundle r' = Some p /\
  Fields p !! "articles" = Some ["title"; "body"] /\ HasFields p = true.
Proof.
  intros r p r'.
  assert (Hn : newFn w r = Forwarded w r') by reflexivity.
  split; [exact Hn|]. split; [apply MiddlewareFn_Forwarded; exact Hn|].
  split; [apply (bundle_WithValue r p)|]. split; [apply lookup_insert_eq|reflexivity].
Qed.

(** C10, as the code has it.  In a request that is forwarded, a
    [filter]-prefixed key that the pattern matches with the capture [sub]
    leaves its first value [x] under [Filters[sub]], whole, commas
    included, when it is the one key of the request that captures [sub];
    and whatever [Filters] holds is the whole first value of a key that
    captures it.  A [fields] key and [include] store [Split(x, ",")]. *)
Theorem filter_value_is_stored_whole (w w' : ResponseWriter) (r r' : Request)
    (k sub x : string) (rest : list string) :
  newFn w r = Forwarded w' r' ->
  In (k, x :: rest) (r_Query r) ->
  captures k sub = true ->
  (forall k' v', In (k', v') (r_Query r) -> captures k' sub = true ->
                 (k', v') = (k, x :: rest)) ->
  (exists p,
     r' = WithContext r (WithValue (r_Context r) ContextKeyQueryParams (ParamsValue p)) /\
     bundle r' = Some p /\ HasFilters p = true /\
     Filters p !! sub = Some x /\
     (forall sub' y, Filters p !! sub' = Some y ->
        exists k' rest', In (k', y :: rest') (r_Query r) /\ captures k' sub' = true)) /\
  (forall w0 r0 p0 kf m0 subf,
     HasPrefix kf "filter" = false -> HasPrefix kf "fields" = true ->
     qregx kf = Some (m0, subf) ->
     exists p1, visit w0 r0 p0 kf (x :: rest) = Continue w0 p1 /\
                Fields p1 !! subf = Some (Split x ",")) /\
  (forall w0 r0 p0,
     exists p1, visit w0 r0 p0 "include" (x :: rest) = Continue w0 p1 /\
                Includes p1 = Split x ",").
Proof.
  intros Hn Hin Hc Huniq. split; [|split].
  - destruct (newFn_Forwarded w w' r r' Hn) as (p & Hrun & _ & Hcase).
    assert (Hall : Forall (fun kv => captures (fst kv) sub = true ->
                                     head (snd kv) = Some x) (r_Query r)).
    { apply List.Forall_forall. intros [k' v'] Hin' Hc'. simpl in *.
      specialize (Huniq k' v' Hin' Hc'). inversion Huniq; subst. reflexivity. }
    destruct (rangeValues_Filters_stored r k sub x rest (r_Query r) Hall Hin Hc
                _ _ _ _ Hrun) as [Hstored Hflag].
    exists p.
    destruct Hcase as [[_ ->]|[Hnone _]];
      [|rewrite Hflag in Hnone; discriminate].
    split; [reflexivity|]. split; [apply bundle_WithValue|].
    split; [exact Hflag|]. split; [exact Hstored|].
    intros sub' y Hy.
    destruct (rangeValues_Filters_origin r sub' y (r_Query r) _ _ _ _ Hrun Hy)
      as [Hempty|Hfound]; [|exact Hfound].
    simpl in Hempty. rewrite lookup_empty in Hempty. discriminate.
  - intros w0 r0 p0 kf m0 subf Hf Hd Hre. unfold visit.
    rewrite Hf, Hd, Hre. eexists. split; [reflexivity|]. simpl.
    rewrite comma_list_Split. apply lookup_insert_eq.
  - intros w0 r0 p0. unfold visit.
    change (HasPrefix "include" "filter") with false.
    change (HasPrefix "include" "fields") with false.
    change (String.eqb "include" "include") with true. cbv iota.
    eexists. split; [reflexivity|]. simpl. apply comma_list_Split.
Qed.

Lemma filter_value_is_stored_whole_witness :
  let w := fresh [] in
  let r := request [("filter[name]", ["foo,bar"])]
             (headers filterMediaType filterMediaType) in
  let p := mkParams [] ∅ (<["name" := "foo,bar"]> ∅) false false true in
  let r' := WithContext r (WithValue (r_Context r) ContextKeyQueryParams (ParamsValue p)) in
  (newFn w r = Forwarded w r' /\
   In ("filter[name]", ["foo,bar"]) (r_Query r) /\
   captures "filter[name]" "name" = true) /\
  exists p0,
    r' = WithContext r (WithValue (r_Context r) ContextKeyQueryParams (ParamsValue p0)) /\
    bundle r' = Some p0 /\ HasFilters p0 = true /\
    Filters p0 !! "name" = Some "foo,bar" /\
    (forall sub' y, Filters p0 !! sub' = Some y ->
       exists k' rest', In (k', y :: rest') (r_Query r) /\ captures k' sub' = true).
Proof.
  intros w r p r'.
  assert (H1 : newFn w r = Forwarded w r') by reflexivity.
  assert (H2 : In ("filter[name]", ["foo,bar"]) (r_Query r)) by (left; reflexivity).
  assert (H3 : captures "filter[name]" "name" = true) by reflexivity.
  split; [auto|].
  apply (proj1 (filter_value_is_stored_whole w w r r' "filter[name]" "name"
                  "foo,bar" [] H1 H2 H3
                  ltac:(intros k' v' [Heq|[]] _; symmetry; exact Heq))).
Defined.

(** C10, as the specification has it, fails when two [filter]-prefixed
    keys capture the same name: [filter[a]=x,y] is a well-formed filter
    key of the request, and the bundle that goes on has the value of
    [filterX[a]], visited later, under [a]. *)
Lemma filter_value_replaced_by_later_key :
  let w := fresh [] in
  let r := request [("filter[a]", ["x,y"]); ("filterX[a]", ["z"])]
             (headers filterMediaType filterMediaType) in
  let p := mkParams [] ∅ (<["a" := "z"]> ∅) false false true in
  let r' := WithContext r (WithValue (r_Context r) ContextKeyQueryParams (ParamsValue p)) in
  In ("filter[a]", ["x,y"]) (r_Query r) /\
  HasPrefix "filter[a]" "filter" = true /\
  qregx "filter[a]" = Some ("filter[a]", "a") /\
  newFn w r = Forwarded w r' /\
  bundle r' = Some p /\
  Filters p !! "a" = Some "z" /\
  String.eqb "z" "x,y" = false.
Proof.
  vm_compute. repeat split. left. reflexivity.
Qed.

(** * Further properties of the query middleware *)

Import queryOrder.

(** The list stored for an [include] or [fields] value is never empty,
    none of its items holds a comma, and joined by commas the items give
    the value back; the test for a comma in the source changes nothing,
    the list is [Split(v, ",")] in both branches. *)
Theorem comma_list_round_trip (v0 : string) :
  comma_list v0 = Split v0 "," /\
  comma_list v0 <> [] /\
  Forall (fun item => Contains item "," = false) (comma_list v0) /\
  Join (comma_list v0) "," = v0.
Proof.
  rewrite comma_list_Split. split; [reflexivity|].
  split; [apply GoStringFacts.Split_nonempty|].
  split; [apply GoStringFacts.Split_pieces_without_sep|apply GoStringFacts.Join_Split].
Qed.

Lemma Get_missing (h : Header) (key : string) :
  h !! CanonicalHeaderKey key = None -> Get h key = EmptyString.
Proof. unfold Get. intros ->. reflexivity. Qed.

(** [validateHeader] answers true exactly when the first [Accept] value
    and the first [Content-Type] value both are [filterMediaType], and then
    it leaves the writer as it was; a wrong [Accept] header gives the 406
    response whatever [Content-Type] is, and a request without an [Accept]
    header gets it too. *)
Theorem validateHeader_decides (w : ResponseWriter) (r : Request) :
  (snd (validateHeader w r) = true <->
     Get (r_Header r) acceptH = filterMediaType /\
     Get (r_Header r) contentType = filterMediaType) /\
  (snd (validateHeader w r) = true -> fst (validateHeader w r) = w) /\
  (Get (r_Header r) acceptH <> filterMediaType ->
     validateHeader w r = (not_acceptable w r, false)) /\
  (r_Header r !! "Accept" = None ->
     validateHeader w r = (not_acceptable w r, false)).
Proof.
  split; [|split; [|split]].
  - split.
    + intros H. destruct (validateHeader w r) as [w' b] eqn:Hv. simpl in H. subst b.
      apply validateHeader_true in Hv as [_ Hv]. unfold valid_headers in Hv.
      apply andb_true_iff in Hv as [Ha Hc].
      apply String.eqb_eq in Ha, Hc. split; congruence.
    + intros [Ha Hc]. rewrite validateHeader_valid; [reflexivity|].
      unfold valid_headers. rewrite Hc, Ha, String.eqb_refl. reflexivity.
  - intros H. destruct (validateHeader w r) as [w' b] eqn:Hv. simpl in H. subst b.
    apply validateHeader_true in Hv as [-> _]. reflexivity.
  - apply validateHeader_not_acceptable.
  - intros Hnone. apply validateHeader_not_acceptable.
    rewrite (Get_missing (r_Header r) acceptH Hnone). discriminate.
Qed.

Lemma rangeValues_unrecognized (w : ResponseWriter) (r : Request) (p : Params)
    (values : list (string * list string)) :
  Forall (fun kv => recognized (fst kv) = false) values ->
  rangeValues w r p values = Continue w p.
Proof.
  induction values as [|[k v] later IH]; intros Hall; [reflexivity|].
  inversion Hall as [|? ? Hk Hlater]; subst. simpl in Hk. simpl.
  unfold recognized in Hk.
  apply orb_false_iff in Hk as [Hk Hi]. apply orb_false_iff in Hk as [Hf Hd].
  unfold visit. rewrite Hf, Hd, Hi. apply IH. exact Hlater.
Qed.

(** A request none of whose keys is [include], or starts with [fields] or
    [filter], reaches the handler as it came, with nothing attached and
    nothing written, whatever its headers and its values are (a key with
    an empty value slice included). *)
Theorem unrecognized_query_passes_through (w : ResponseWriter) (r : Request) :
  Forall (fun kv => recognized (fst kv) = false) (r_Query r) ->
  newFn w r = Forwarded w r /\
  forall fn, MiddlewareFn fn w r = fn w r.
Proof.
  intros Hall.
  assert (Hn : newFn w r = Forwarded w r).
  { unfold newFn. rewrite (rangeValues_unrecognized w r newParams _ Hall). reflexivity. }
  split; [exact Hn|]. apply MiddlewareFn_Forwarded. exact Hn.
Qed.

Lemma unrecognized_query_passes_through_witness :
  let w := fresh [] in
  let r := request [("page[number]", ["2"]); ("sort", [])] ∅ in
  Forall (fun kv => recognized (fst kv) = false) (r_Query r) /\
  newFn w r = Forwarded w r /\
  forall fn, MiddlewareFn fn w r = fn w r.
Proof.
  intros w r.
  assert (H : Forall (fun kv => recognized (fst kv) = false) (r_Query r))
    by (repeat constructor).
  split; [exact H|].
  apply (unrecognized_query_passes_through w r H).
Defined.

Lemma rangeValues_no_panic (w : ResponseWriter) (r : Request)
    (values : list (string * list string)) :
  parsed values -> forall p, rangeValues w r p values <> IndexPanic.
Proof.
  induction values as [|[k v] later IH]; intros Hparsed p; [discriminate|].
  inversion Hparsed as [|? ? Hv Hlater]; subst. simpl in Hv. simpl.
  pose proof (visit_no_panic w r p k v Hv) as Hnp.
  destruct (visit w r p k v) as [w1 p1|w1|] eqn:Hvis; [|discriminate|contradiction].
  apply visit_Continue_writer in Hvis as ->. apply IH. exact Hlater.
Qed.

(** On a query in which every key has a value, as [url.ParseQuery] builds
    it, [v[0]] is always in range: the middleware either forwards the
    request or answers it, and a handler that returns makes it return. *)
Theorem parsed_query_never_panics (w : ResponseWriter) (r : Request) :
  parsed (r_Query r) ->
  newFn w r <> Panicked /\
  forall fn, (forall w' r', fn w' r' <> None) -> MiddlewareFn fn w r <> None.
Proof.
  intros Hparsed.
  assert (Hn : newFn w r <> Panicked).
  { unfold newFn. pose proof (rangeValues_no_panic w r _ Hparsed newParams) as Hnp.
    destruct (rangeValues w r newParams (r_Query r)) as [w1 p1|w1|];
      [|discriminate|contradiction].
    destruct (HasFilters p1 || HasFields p1 || HasIncludes p1); discriminate. }
  split; [exact Hn|]. intros fn Hfn. unfold MiddlewareFn.
  destruct (newFn w r) as [w1 r1|w1|]; [apply Hfn|discriminate|contradiction].
Qed.

Lemma parsed_query_never_panics_witness :
  let w := fresh [] in
  let r := request [("include", ["author"]); ("filter[name]", [""])] ∅ in
  parsed (r_Query r) /\
  Is_true (match newFn w r with Panicked => false | _ => true end).
Proof.
  intros w r.
  assert (H : parsed (r_Query r)) by (repeat constructor; discriminate).
  split; [exact H|].
  pose proof (proj1 (parsed_query_never_panics w r H)) as Hn.
  destruct (newFn w r); [exact I|exact I|contradiction].
Defined.

(** The precondition is a real one: a recognized key with an empty value
    slice makes the loop index out of range. *)
Lemma empty_value_slice_panics (w : ResponseWriter) (r : Request) (p : Params)
    (k : string) (later : list (string * list string)) :
  recognized k = true -> halts r k = false ->
  rangeValues w r p ((k, []) :: later) = IndexPanic.
Proof.
  unfold recognized, halts. simpl. unfold visit. intros Hrec Hhalt.
  destruct (HasPrefix k "filter").
  - apply orb_false_iff in Hhalt as [Hv Hq].
    apply negb_false_iff in Hv. rewrite (validateHeader_valid w r Hv).
    destruct (qregx k) as [[m0 m1]|]; reflexivity.
  - destruct (HasPrefix k "fields").
    + destruct (qregx k) as [[m0 m1]|]; reflexivity.
    + simpl in Hrec. rewrite Hrec. reflexivity.
Qed.

(** The loop reads nothing of the request but its headers. *)
Lemma rangeValues_same_headers (w : ResponseWriter) (r1 r2 : Request)
    (values : list (string * list string)) :
  r_Header r1 = r_Header r2 ->
  forall p, rangeValues w r1 p values = rangeValues w r2 p values.
Proof.
  intros Hh. induction values as [|[k v] later IH]; intros p; [reflexivity|].
  simpl. assert (Hv : visit w r1 p k v = visit w r2 p k v).
  { unfold visit, validateHeader. rewrite Hh. reflexivity. }
  rewrite Hv. destruct (visit w r2 p k v) as [w1 p1| |] eqn:Hvis; try reflexivity.
  apply visit_Continue_writer in Hvis as ->. apply IH.
Qed.

Lemma newFn_with_query (w : ResponseWriter) (r : Request)
    (values : list (string * list string)) :
  (forall p, rangeValues w r p values = rangeValues w r p (r_Query r)) ->
  newFn w (with_query r values)
    = map_forwarded (fun r' => with_query r' values) (newFn w r).
Proof.
  intros Hsame. unfold newFn.
  change (r_Query (with_query r values)) with values.
  rewrite (rangeValues_same_headers w (with_query r values) r values eq_refl).
  rewrite Hsame.
  destruct (rangeValues w r newParams (r_Query r)) as [w1 p1|w1|]; try reflexivity.
  destruct (HasFilters p1 || HasFields p1 || HasIncludes p1); reflexivity.
Qed.

Lemma rangeValues_first_values (w : ResponseWriter) (r : Request)
    (values : list (string * list string)) :
  forall p, rangeValues w r p (first_values values) = rangeValues w r p values.
Proof.
  induction values as [|[k v] later IH]; intros p; [reflexivity|].
  simpl. assert (Hv : visit w r p k (firstn 1 v) = visit w r p k v).
  { destruct v as [|v0 rest]; reflexivity. }
  rewrite Hv. destruct (visit w r p k v) as [w1 p1| |] eqn:Hvis; try reflexivity.
  apply visit_Continue_writer in Hvis as ->. apply IH.
Qed.

(** Of the values of a key the middleware reads the first one only: with
    every further value dropped from the query, it answers alike or
    forwards the same bundle. *)
Theorem further_values_are_ignored (w : ResponseWriter) (r : Request) :
  newFn w (with_query r (first_values (r_Query r)))
    = map_forwarded (fun r' => with_query r' (first_values (r_Query r))) (newFn w r).
Proof. apply newFn_with_query. intros p. apply rangeValues_first_values. Qed.

Lemma rangeValues_recognized_only (w : ResponseWriter) (r : Request)
    (values : list (string * list string)) :
  forall p,
    rangeValues w r p (List.filter (fun kv => recognized (fst kv)) values)
      = rangeValues w r p values.
Proof.
  induction values as [|[k v] later IH]; intros p; [reflexivity|].
  simpl. destruct (recognized k) eqn:Hk.
  - simpl. destruct (visit w r p k v) as [w1 p1| |] eqn:Hvis; try reflexivity.
    apply visit_Continue_writer in Hvis as ->. apply IH.
  - unfold recognized in Hk.
    apply orb_false_iff in Hk as [Hk Hi]. apply orb_false_iff in Hk as [Hf Hd].
    assert (Hv : visit w r p k v = Continue w p).
    { unfold visit. rewrite Hf, Hd, Hi. reflexivity. }
    rewrite Hv. apply IH.
Qed.

(** Keys other than [include] and those starting with [fields] or
    [filter] have no part in the result: with them taken out of the query,
    the middleware answers alike or forwards the same bundle. *)
Theorem other_keys_are_ignored (w : ResponseWriter) (r : Request) :
  let kept := List.filter (fun kv => recognized (fst kv)) (r_Query r) in
  newFn w (with_query r kept)
    = map_forwarded (fun r' => with_query r' kept) (newFn w r).
Proof. apply newFn_with_query. intros p. apply rangeValues_recognized_only. Qed.

(** The headers of a request matter for [filter]-prefixed keys only: a
    request without such a key is answered or forwarded alike under any
    other headers. *)
Theorem headers_matter_for_filter_keys_only (w : ResponseWriter) (r : Request)
    (h : Header) :
  Forall (fun kv => HasPrefix (fst kv) "filter" = false) (r_Query r) ->
  newFn w (with_headers r h)
    = map_forwarded (fun r' => with_headers r' h) (newFn w r).
Proof.
  intros Hall. unfold newFn.
  change (r_Query (with_headers r h)) with (r_Query r).
  rewrite (rangeValues_ignores_headers w (with_headers r h) r (r_Query r) Hall).
  destruct (rangeValues w r newParams (r_Query r)) as [w1 p1|w1|]; try reflexivity.
  destruct (HasFilters p1 || HasFields p1 || HasIncludes p1); reflexivity.
Qed.

Lemma headers_matter_for_filter_keys_only_witness :
  let w := fresh [] in
  let r := request [("fieldsX", ["title"]); ("include", ["author"])] ∅ in
  let h := headers "text/html" "text/html" in
  Forall (fun kv => HasPrefix (fst kv) "filter" = false) (r_Query r) /\
  newFn w (with_headers r h)
    = map_forwarded (fun r' => with_headers r' h) (newFn w r).
Proof.
  intros w r h.
  assert (H : Forall (fun kv => HasPrefix (fst kv) "filter" = false) (r_Query r))
    by (repeat constructor).
  split; [exact H|].
  apply (headers_matter_for_filter_keys_only w r h H).
Defined.

(** ** The places of the bundle, one at a time *)

Module querySlots.
Import GoString GoStringFacts Http HttpFacts query queryShape queryOrder.
Import queryFacts queryLoop queryStore.

(** All the ways an iteration has of going on. *)
Ltac visit_cases w r k v :=
  unfold visit;
  destruct (HasPrefix k "filter") eqn:?;
  [ destruct (validateHeader w r) as [? [|]]; [|discriminate];
    destruct (qregx k) as [[? ?]|] eqn:?; destruct v; try discriminate
  | destruct (HasPrefix k "fields") eqn:?;
    [ destruct (qregx k) as [[? ?]|] eqn:?; destruct v; try discriminate
    | destruct (String.eqb k "include") eqn:?;
      [ destruct v; try discriminate | ] ] ].

Section Slot.
Context {A : Type}.

(** A place of the bundle: [get] reads it, the keys selected by [sel]
    write [val] of their first value into it, the others leave it. *)
Variable sel : string -> bool.
Variable get : Params -> A.
Variable val : string -> A.

Hypothesis other : forall w r p k v w' p',
  visit w r p k v = Continue w' p' -> sel k = false -> get p' = get p.
Hypothesis capture : forall w r p k v w' p',
  visit w r p k v = Continue w' p' -> sel k = true ->
  exists v0 rest, v = v0 :: rest /\ get p' = val v0.

Lemma slot_absent (r : Request) (values : list (string * list string)) :
  Forall (fun kv => sel (fst kv) = false) values ->
  forall w w' p p', rangeValues w r p values = Continue w' p' -> get p' = get p.
Proof.
  induction values as [|[k v] later IH]; simpl; intros Hall w w' p p' H.
  - inversion H; reflexivity.
  - inversion Hall as [|? ? Hk Hlater]; subst. simpl in Hk.
    destruct (visit w r p k v) as [w1 p1| |] eqn:Hv; try discriminate.
    rewrite (IH Hlater _ _ _ _ H). eapply other; eassumption.
Qed.

Lemma slot_keep (r : Request) (a : A) (values : list (string * list string)) :
  (forall k x rest, In (k, x :: rest) values -> sel k = true -> val x = a) ->
  forall w w' p p', rangeValues w r p values = Continue w' p' ->
    get p = a -> get p' = a.
Proof.
  induction values as [|[k v] later IH]; simpl; intros Hall w w' p p' H Hp.
  - congruence.
  - destruct (visit w r p k v) as [w1 p1| |] eqn:Hv; try discriminate.
    eapply IH; [|exact H|].
    + intros k' x rest Hin. apply (Hall k' x rest). right. exact Hin.
    + destruct (sel k) eqn:Hs.
      * destruct (capture _ _ _ _ _ _ _ Hv Hs) as (v0 & rest & -> & Hg).
        rewrite Hg. apply (Hall k v0 rest); [left; reflexivity|exact Hs].
      * rewrite (other _ _ _ _ _ _ _ Hv Hs). exact Hp.
Qed.

Lemma slot_stored (r : Request) (a : A) (values : list (string * list string)) :
  (forall k x rest, In (k, x :: rest) values -> sel k = true -> val x = a) ->
  Exists (fun kv => sel (fst kv) = true) values ->
  forall w w' p p', rangeValues w r p values = Continue w' p' -> get p' = a.
Proof.
  induction values as [|[k v] later IH]; simpl; intros Hall Hex w w' p p' H.
  - inversion Hex.
  - destruct (visit w r p k v) as [w1 p1| |] eqn:Hv; try discriminate.
    assert (Hlater : forall k' x rest, In (k', x :: rest) later -> sel k' = true -> val x = a).
    { intros k' x rest Hin. apply (Hall k' x rest). right. exact Hin. }
    destruct (sel k) eqn:Hs.
    + destruct (capture _ _ _ _ _ _ _ Hv Hs) as (v0 & rest & -> & Hg).
      eapply slot_keep; [exact Hlater|exact H|].
      rewrite Hg. apply (Hall k v0 rest); [left; reflexivity|exact Hs].
    + eapply IH; [exact Hlater| |exact H].
      inversion Hex as [? ? Hh|? ? Ht]; subst; [|exact Ht].
      simpl in Hh. congruence.
Qed.

Lemma slot_origin (r : Request) (values : list (string * list string)) :
  forall w w' p p', rangeValues w r p values = Continue w' p' ->
    get p' = get p \/
    exists k x rest, In (k, x :: rest) values /\ sel k = true /\ get p' = val x.
Proof.
  induction values as [|[k v] later IH]; simpl; intros w w' p p' H.
  - inversion H; subst. left. reflexivity.
  - destruct (visit w r p k v) as [w1 p1| |] eqn:Hv; try discriminate.
    destruct (IH _ _ _ _ H) as [Hsame|(k2 & x2 & rest2 & Hin & Hs2 & Hg2)].
    + destruct (sel k) eqn:Hs.
      * destruct (capture _ _ _ _ _ _ _ Hv Hs) as (v0 & rest & -> & Hg).
        right. exists k, v0, rest.
        split; [left; reflexivity|]. split; [exact Hs|]. congruence.
      * left. rewrite Hsame. eapply other; eassumption.
    + right. exists k2, x2, rest2. split; [right; exact Hin|]. auto.
Qed.

(** The place ends the same in whatever order the entries are visited,
    when the keys that write it agree on what they write. *)
Lemma slot_permutation (r : Request) (values values' : list (string * list string)) :
  Permutation values values' ->
  (forall k1 x1 rest1 k2 x2 rest2,
     In (k1, x1 :: rest1) values -> In (k2, x2 :: rest2) values ->
     sel k1 = true -> sel k2 = true -> val x1 = val x2) ->
  forall w w1 w2 p p1 p2,
    rangeValues w r p values = Continue w1 p1 ->
    rangeValues w r p values' = Continue w2 p2 ->
    get p1 = get p2.
Proof.
  intros Hperm Hagree w w1 w2 p p1 p2 H1 H2.
  destruct (slot_origin r values _ _ _ _ H1) as [Hsame|(k & x & rest & Hin & Hs & Hg)].
  - destruct (slot_origin r values' _ _ _ _ H2) as [Hsame'|(k & x & rest & Hin & Hs & Hg)].
    + congruence.
    + assert (Hin' : In (k, x :: rest) values).
      { apply (Permutation_in _ (Permutation_sym Hperm)). exact Hin. }
      rewrite Hg. apply (slot_stored r (val x) values) with (w := w) (w' := w1) (p := p).
      * intros k' x' rest' Hin2 Hs2. apply (Hagree k' x' rest' k x rest); assumption.
      * apply List.Exists_exists. exists (k, x :: rest). split; [exact Hin'|exact Hs].
      * exact H1.
  - rewrite Hg. symmetry.
    apply (slot_stored r (val x) values') with (w := w) (w' := w2) (p := p).
    + intros k' x' rest' Hin2 Hs2.
      apply (Hagree k' x' rest' k x rest); try assumption.
      apply (Permutation_in _ (Permutation_sym Hperm)). exact Hin2.
    + apply List.Exists_exists. exists (k, x :: rest).
      split; [apply (Permutation_in _ Hperm); exact Hin|exact Hs].
    + exact H2.
Qed.

End Slot.

(** The six places and the keys that write them. *)

Lemma Filters_other (sub : string) w r p k v w' p' :
  visit w r p k v = Continue w' p' -> captures k sub = false ->
  Filters p' !! sub = Filters p !! sub.
Proof. apply visit_Filters_other. Qed.

Lemma Filters_capture (sub : string) w r p k v w' p' :
  visit w r p k v = Continue w' p' -> captures k sub = true ->
  exists v0 rest, v = v0 :: rest /\ Filters p' !! sub = Some v0.
Proof.
  intros Hv Hc.
  destruct (visit_Filters_capture _ _ _ _ _ _ _ _ Hv Hc) as (v0 & rest & Hl & Hg & _).
  eauto.
Qed.

Lemma Fields_other (sub : string) w r p k v w' p' :
  visit w r p k v = Continue w' p' -> captures_fields k sub = false ->
  Fields p' !! sub = Fields p !! sub.
Proof.
  unfold captures_fields. visit_cases w r k v;
    intros H Hc; inversion H; subst; simpl in *; try reflexivity.
  apply String.eqb_neq in Hc. apply lookup_insert_ne. exact Hc.
Qed.

Lemma Fields_capture (sub : string) w r p k v w' p' :
  visit w r p k v = Continue w' p' -> captures_fields k sub = true ->
  exists v0 rest, v = v0 :: rest /\ Fields p' !! sub = Some (comma_list v0).
Proof.
  unfold captures_fields. visit_cases w r k v;
    intros H Hc; inversion H; subst; simpl in *; try discriminate.
  apply String.eqb_eq in Hc. subst. eexists _, _.
  split; [reflexivity|apply lookup_insert_eq].
Qed.

Lemma include_has_no_prefix (k : string) :
  String.eqb k "include" = true ->
  HasPrefix k "filter" = false /\ HasPrefix k "fields" = false.
Proof. intros H. apply String.eqb_eq in H. subst. split; reflexivity. Qed.

Lemma Includes_other w r p k v w' p' :
  visit w r p k v = Continue w' p' -> String.eqb k "include" = false ->
  Includes p' = Includes p.
Proof.
  visit_cases w r k v; intros H Hc; inversion H; subst; simpl in *;
    try reflexivity; congruence.
Qed.

Lemma Includes_capture w r p k v w' p' :
  visit w r p k v = Continue w' p' -> String.eqb k "include" = true ->
  exists v0 rest, v = v0 :: rest /\ Includes p' = comma_list v0.
Proof.
  intros H Hc. destruct (include_has_no_prefix k Hc) as [Hf Hd].
  revert H. unfold visit. rewrite Hf, Hd, Hc.
  destruct v as [|v0 rest]; [discriminate|].
  intros H. inversion H; subst. eauto.
Qed.

Lemma HasFilters_other w r p k v w' p' :
  visit w r p k v = Continue w' p' -> HasPrefix k "filter" = false ->
  HasFilters p' = HasFilters p.
Proof.
  visit_cases w r k v; intros H Hc; inversion H; subst; simpl in *;
    try reflexivity; congruence.
Qed.

Lemma HasFilters_capture w r p k v w' p' :
  visit w r p k v = Continue w' p' -> HasPrefix k "filter" = true ->
  exists v0 rest, v = v0 :: rest /\ HasFilters p' = (fun _ : string => true) v0.
Proof.
  visit_cases w r k v; intros H Hc; inversion H; subst; simpl in *;
    try congruence.
  eauto.
Qed.

Definition is_fields (k : string) : bool :=
  negb (HasPrefix k "filter") && HasPrefix k "fields".

Lemma HasFields_other w r p k v w' p' :
  visit w r p k v = Continue w' p' -> is_fields k = false ->
  HasFields p' = HasFields p.
Proof.
  unfold is_fields. visit_cases w r k v; intros H Hc; inversion H; subst;
    simpl in *; try reflexivity; congruence.
Qed.

Lemma HasFields_capture w r p k v w' p' :
  visit w r p k v = Continue w' p' -> is_fields k = true ->
  exists v0 rest, v = v0 :: rest /\ HasFields p' = (fun _ : string => true) v0.
Proof.
  unfold is_fields. visit_cases w r k v; intros H Hc; inversion H; subst;
    simpl in *; try congruence.
  eauto.
Qed.

Lemma HasIncludes_other w r p k v w' p' :
  visit w r p k v = Continue w' p' -> String.eqb k "include" = false ->
  HasIncludes p' = HasIncludes p.
Proof.
  visit_cases w r k v; intros H Hc; inversion H; subst; simpl in *;
    try reflexivity; congruence.
Qed.

Lemma HasIncludes_capture w r p k v w' p' :
  visit w r p k v = Continue w' p' -> String.eqb k "include" = true ->
  exists v0 rest, v = v0 :: rest /\ HasIncludes p' = (fun _ : string => true) v0.
Proof.
  intros H Hc. destruct (include_has_no_prefix k Hc) as [Hf Hd].
  revert H. unfold visit. rewrite Hf, Hd, Hc.
  destruct v as [|v0 rest]; [discriminate|].
  intros H. inversion H; subst. eauto.
Qed.

End querySlots.

(** ** The bundle as a whole *)

Import querySlots.

Lemma comma_list_nonempty (v0 : string) : comma_list v0 <> [].
Proof. rewrite comma_list_Split. apply GoStringFacts.Split_nonempty. Qed.

Lemma visit_flags_ok (w w' : ResponseWriter) (r : Request) (p p' : Params)
    (k : string) (v : list string) :
  visit w r p k v = Continue w' p' -> flags_ok p -> flags_ok p'.
Proof.
  unfold flags_ok. visit_cases w r k v;
    intros H (Hfl & Hfd & Hin); inversion H; subst; simpl; auto.
  - split; [|auto]. split; [intros _; apply insert_non_empty|reflexivity].
  - split; [exact Hfl|]. split; [|exact Hin].
    split; [intros _; apply insert_non_empty|reflexivity].
  - split; [exact Hfl|]. split; [exact Hfd|].
    split; [intros _; apply comma_list_nonempty|reflexivity].
Qed.

Lemma rangeValues_flags_ok (r : Request) (values : list (string * list string)) :
  forall w w' p p', rangeValues w r p values = Continue w' p' ->
    flags_ok p -> flags_ok p'.
Proof.
  induction values as [|[k v] later IH]; simpl; intros w w' p p' H Hp.
  - inversion H; subst. exact Hp.
  - destruct (visit w r p k v) as [w1 p1| |] eqn:Hv; try discriminate.
    eapply IH; [exact H|]. eapply visit_flags_ok; eassumption.
Qed.

Lemma newParams_flags_ok : flags_ok newParams.
Proof.
  unfold flags_ok, newParams. simpl.
  repeat split; intros H; try discriminate; contradiction.
Qed.

(** In a request that is forwarded, either nothing is attached and the
    loop has stored nothing, or a bundle is attached that holds something,
    and in it each flag is true exactly when its place is not empty. *)
Theorem attached_bundle_is_not_empty (w w' : ResponseWriter) (r r' : Request) :
  newFn w r = Forwarded w' r' ->
  exists p, rangeValues w r newParams (r_Query r) = Continue w p /\ flags_ok p /\
    ((r' = r /\ Filters p = ∅ /\ Fields p = ∅ /\ Includes p = []) \/
     (r' = WithContext r (WithValue (r_Context r) ContextKeyQueryParams (ParamsValue p)) /\
      (Filters p <> ∅ \/ Fields p <> ∅ \/ Includes p <> []))).
Proof.
  intros Hn. destruct (newFn_Forwarded w w' r r' Hn) as (p & Hrun & _ & Hcase).
  pose proof (rangeValues_flags_ok r _ _ _ _ _ Hrun newParams_flags_ok) as Hok.
  exists p. split; [exact Hrun|]. split; [exact Hok|].
  destruct Hok as (Hfl & Hfd & Hin).
  destruct Hcase as [[Hflag ->]|[Hflag ->]].
  - right. split; [reflexivity|].
    apply orb_true_iff in Hflag as [Hflag|Hi]; [|right; right; apply Hin; exact Hi].
    apply orb_true_iff in Hflag as [Hf|Hd]; [left; apply Hfl; exact Hf|].
    right; left; apply Hfd; exact Hd.
  - left. split; [reflexivity|].
    apply orb_false_iff in Hflag as [Hflag Hi]. apply orb_false_iff in Hflag as [Hf Hd].
    split; [|split].
    + destruct (decide (Filters p = ∅)) as [He|Hne]; [exact He|].
      apply Hfl in Hne. congruence.
    + destruct (decide (Fields p = ∅)) as [He|Hne]; [exact He|].
      apply Hfd in Hne. congruence.
    + destruct (decide (Includes p = [])) as [He|Hne]; [exact He|].
      apply Hin in Hne. congruence.
Qed.

Lemma attached_bundle_is_not_empty_witness :
  let w := fresh [] in
  let r := request [("include", ["author"])] ∅ in
  let p := mkParams ["author"] ∅ ∅ false true false in
  let r' := WithContext r (WithValue (r_Context r) ContextKeyQueryParams (ParamsValue p)) in
  newFn w r = Forwarded w r' /\
  exists p0, rangeValues w r newParams (r_Query r) = Continue w p0 /\ flags_ok p0 /\
    ((r' = r /\ Filters p0 = ∅ /\ Fields p0 = ∅ /\ Includes p0 = []) \/
     (r' = WithContext r (WithValue (r_Context r) ContextKeyQueryParams (ParamsValue p0)) /\
      (Filters p0 <> ∅ \/ Fields p0 <> ∅ \/ Includes p0 <> []))).
Proof.
  intros w r p r'.
  assert (H : newFn w r = Forwarded w r') by reflexivity.
  split; [exact H|].
  apply (attached_bundle_is_not_empty w w r r' H).
Defined.

(** In a request that is forwarded, the first value [x] of the [include]
    key is in the bundle as [Split(x, ",")], with [HasIncludes] raised. *)
Theorem include_value_is_split (w w' : ResponseWriter) (r r' : Request)
    (x : string) (rest : list string) :
  newFn w r = Forwarded w' r' ->
  In ("include", x :: rest) (r_Query r) ->
  (forall v', In ("include", v') (r_Query r) -> head v' = Some x) ->
  exists p,
    r' = WithContext r (WithValue (r_Context r) ContextKeyQueryParams (ParamsValue p)) /\
    bundle r' = Some p /\ HasIncludes p = true /\ Includes p = Split x ",".
Proof.
  intros Hn Hin Huniq.
  destruct (newFn_Forwarded w w' r r' Hn) as (p & Hrun & _ & Hcase).
  assert (Hex : Exists (fun kv => String.eqb (fst kv) "include" = true) (r_Query r)).
  { apply List.Exists_exists. exists ("include", x :: rest). split; [exact Hin|reflexivity]. }
  assert (Hflag : HasIncludes p = true).
  { apply (slot_stored (fun k => String.eqb k "include") HasIncludes (fun _ => true)
             HasIncludes_other HasIncludes_capture r true (r_Query r))
      with (w := w) (w' := w) (p := newParams); auto. }
  assert (Hval : Includes p = comma_list x).
  { apply (slot_stored (fun k => String.eqb k "include") Includes comma_list
             Includes_other Includes_capture r (comma_list x) (r_Query r))
      with (w := w) (w' := w) (p := newParams); auto.
    intros k y rest' Hin' Hk. apply String.eqb_eq in Hk. subst k.
    specialize (Huniq _ Hin'). simpl in Huniq. congruence. }
  exists p. destruct Hcase as [[_ ->]|[Hnone _]].
  - split; [reflexivity|]. split; [apply bundle_WithValue|].
    split; [exact Hflag|]. rewrite Hval. apply comma_list_Split.
  - rewrite Hflag, orb_true_r in Hnone. discriminate.
Qed.

Lemma include_value_is_split_witness :
  let w := fresh [] in
  let r := request [("include", ["author,comments.author"])] ∅ in
  (In ("include", ["author,comments.author"]) (r_Query r)) /\
  exists p r',
    newFn w r = Forwarded w r' /\ bundle r' = Some p /\
    Includes p = ["author"; "comments.author"].
Proof.
  intros w r.
  assert (H1 : In ("include", ["author,comments.author"]) (r_Query r))
    by (left; reflexivity).
  split; [exact H1|].
  destruct (include_value_is_split w w r
              (WithContext r (WithValue (r_Context r) ContextKeyQueryParams
                 (ParamsValue (mkParams ["author"; "comments.author"] ∅ ∅ false true false))))
              "author,comments.author" [] eq_refl H1
              ltac:(intros v' [Heq|[]]; inversion Heq; reflexivity))
    as (p & Hr & Hb & _ & Hi).
  exists p. eexists. split; [reflexivity|]. split; [exact Hb|exact Hi].
Defined.

(** In a request that is forwarded, a [fields] key that the pattern
    matches with the capture [sub] leaves [Split(x, ",")] of its first
    value [x] under [Fields[sub]], when the [fields] keys capturing [sub]
    agree on that value; and whatever [Fields] holds is the split first
    value of a [fields] key that captures it. *)
Theorem fields_value_is_split (w w' : ResponseWriter) (r r' : Request)
    (k sub x : string) (rest : list string) :
  newFn w r = Forwarded w' r' ->
  In (k, x :: rest) (r_Query r) ->
  captures_fields k sub = true ->
  (forall k' v', In (k', v') (r_Query r) -> captures_fields k' sub = true ->
                 head v' = Some x) ->
  exists p,
    r' = WithContext r (WithValue (r_Context r) ContextKeyQueryParams (ParamsValue p)) /\
    bundle r' = Some p /\ HasFields p = true /\
    Fields p !! sub = Some (Split x ",") /\
    (forall sub' items, Fields p !! sub' = Some items ->
       exists k' y rest', In (k', y :: rest') (r_Query r) /\
         captures_fields k' sub' = true /\ items = Split y ",").
Proof.
  intros Hn Hin Hc Huniq.
  destruct (newFn_Forwarded w w' r r' Hn) as (p & Hrun & _ & Hcase).
  assert (Hflag : HasFields p = true).
  { apply (slot_stored is_fields HasFields (fun _ => true)
             HasFields_other HasFields_capture r true (r_Query r))
      with (w := w) (w' := w) (p := newParams); auto.
    apply List.Exists_exists. exists (k, x :: rest). split; [exact Hin|].
    unfold captures_fields in Hc. unfold is_fields. simpl.
    apply andb_true_iff in Hc as [Hc _]. exact Hc. }
  assert (Hval : Fields p !! sub = Some (comma_list x)).
  { apply (slot_stored (fun k => captures_fields k sub) (fun p => Fields p !! sub)
             (fun y => Some (comma_list y))
             (Fields_other sub) (Fields_capture sub) r (Some (comma_list x)) (r_Query r))
      with (w := w) (w' := w) (p := newParams); auto.
    - intros k' y rest' Hin' Hk. specialize (Huniq _ _ Hin' Hk). simpl in Huniq. congruence.
    - apply List.Exists_exists. exists (k, x :: rest). split; [exact Hin|exact Hc]. }
  exists p. destruct Hcase as [[_ ->]|[Hnone _]].
  - split; [reflexivity|]. split; [apply bundle_WithValue|].
    split; [exact Hflag|]. split; [rewrite Hval, comma_list_Split; reflexivity|].
    intros sub' items Hitems.
    destruct (slot_origin (fun k => captures_fields k sub') (fun p => Fields p !! sub')
                (fun y => Some (comma_list y))
                (Fields_other sub') (Fields_capture sub') r (r_Query r) _ _ _ _ Hrun)
      as [Hsame|(k' & y & rest' & Hin' & Hs & Hg)].
    + rewrite Hitems in Hsame. simpl in Hsame. rewrite lookup_empty in Hsame. discriminate.
    + exists k', y, rest'. split; [exact Hin'|]. split; [exact Hs|].
      rewrite Hitems, comma_list_Split in Hg. congruence.
  - rewrite Hflag, orb_true_r in Hnone. discriminate.
Qed.

Lemma fields_value_is_split_witness :
  let w := fresh [] in
  let r := request [("fields[people]", ["name"]); ("fields[articles]", ["title,body"])] ∅ in
  (In ("fields[articles]", ["title,body"]) (r_Query r) /\
   captures_fields "fields[articles]" "articles" = true) /\
  exists p r',
    newFn w r = Forwarded w r' /\ bundle r' = Some p /\
    Fields p !! "articles" = Some ["title"; "body"].
Proof.
  intros w r.
  assert (H1 : In ("fields[articles]", ["title,body"]) (r_Query r))
    by (right; left; reflexivity).
  assert (H2 : captures_fields "fields[articles]" "articles" = true) by reflexivity.
  split; [auto|].
  destruct (newFn w r) as [w1 r1|w1|] eqn:Hn; try (vm_compute in Hn; discriminate).
  assert (Hw : w1 = w) by (vm_compute in Hn; inversion Hn; reflexivity). subst w1.
  destruct (fields_value_is_split w w r r1 "fields[articles]" "articles"
              "title,body" [] Hn H1 H2
              ltac:(intros k' v' [Heq|[Heq|[]]] Hc; inversion Heq; subst;
                    [vm_compute in Hc; discriminate|reflexivity]))
    as (p & Hr & Hb & _ & Hf & _).
  exists p, r1. split; [reflexivity|]. split; [exact Hb|exact Hf].
Defined.

(** ** The order of the visit *)

Lemma visit_Continue_iff (w : ResponseWriter) (r : Request) (p : Params)
    (k : string) (v : list string) :
  v <> [] ->
  ((exists p', visit w r p k v = Continue w p') <-> halts r k = false).
Proof.
  intros Hv. destruct v as [|v0 rest]; [contradiction|].
  unfold halts, visit. destruct (HasPrefix k "filter").
  - destruct (valid_headers r) eqn:Hvalid.
    + rewrite (validateHeader_valid w r Hvalid). simpl.
      destruct (qregx k) as [[m0 m1]|]; split; intros H;
        try reflexivity; try discriminate; eauto.
      destruct H as [p' H]. discriminate.
    + destruct (validateHeader_invalid w r Hvalid) as [Hs _].
      destruct (validateHeader w r) as [w1 b]. simpl in Hs. subst b. simpl.
      split; [intros [p' H]|intros H]; discriminate.
  - destruct (HasPrefix k "fields").
    + destruct (qregx k) as [[m0 m1]|]; split; intros H;
        try reflexivity; try discriminate; eauto.
      destruct H as [p' H]. discriminate.
    + destruct (String.eqb k "include"); split; intros _; eauto.
Qed.

(** The loop runs to its end exactly when no key of the query makes it
    [return]. *)
Lemma rangeValues_Continue_iff (w : ResponseWriter) (r : Request)
    (values : list (string * list string)) :
  parsed values ->
  forall p, (exists p', rangeValues w r p values = Continue w p') <->
            Forall (fun kv => halts r (fst kv) = false) values.
Proof.
  induction values as [|[k v] later IH]; intros Hparsed p.
  - split; [constructor|]. intros _. exists p. reflexivity.
  - inversion Hparsed as [|? ? Hv Hlater]; subst. simpl in Hv. simpl. split.
    + intros [p' H].
      destruct (visit w r p k v) as [w1 p1| |] eqn:Hvis; try discriminate.
      pose proof (visit_Continue_writer _ _ _ _ _ _ _ Hvis) as ->.
      constructor.
      * simpl. apply (visit_Continue_iff w r p k v Hv). eauto.
      * apply (IH Hlater p1). eauto.
    + intros Hall. inversion Hall as [|? ? Hk Hrest]; subst. simpl in Hk.
      apply (visit_Continue_iff w r p k v Hv) in Hk as [p1 Hvis].
      rewrite Hvis. apply (IH Hlater p1). exact Hrest.
Qed.

Lemma newFn_forwards_iff (w : ResponseWriter) (r : Request) :
  (exists w' r', newFn w r = Forwarded w' r') <->
  (exists p, rangeValues w r newParams (r_Query r) = Continue w p).
Proof.
  split.
  - intros (w' & r' & H). destruct (newFn_Forwarded w w' r r' H) as (p & Hrun & _).
    eauto.
  - intros [p H]. unfold newFn. rewrite H.
    destruct (HasFilters p || HasFields p || HasIncludes p); eauto.
Qed.

(** Whether a request reaches the handler does not depend on the order in
    which Go visits the keys of its query (which error it gets may). *)
Theorem forwarding_is_order_independent (w : ResponseWriter) (r1 r2 : Request) :
  Permutation (r_Query r1) (r_Query r2) ->
  r_Header r1 = r_Header r2 ->
  parsed (r_Query r1) ->
  ((exists w' r', newFn w r1 = Forwarded w' r') <->
   (exists w' r', newFn w r2 = Forwarded w' r')).
Proof.
  intros Hperm Hh Hparsed.
  assert (Hparsed2 : parsed (r_Query r2)).
  { unfold parsed in *. eapply Permutation_Forall; eassumption. }
  rewrite !newFn_forwards_iff.
  rewrite (rangeValues_Continue_iff w r1 _ Hparsed newParams).
  rewrite (rangeValues_Continue_iff w r2 _ Hparsed2 newParams).
  assert (Hhalts : forall k, halts r1 k = halts r2 k).
  { intros k. unfold halts, valid_headers. rewrite Hh. reflexivity. }
  split; intros Hall.
  - apply (Permutation_Forall Hperm).
    eapply List.Forall_impl; [|exact Hall]. intros [k v] Hk. simpl in *. congruence.
  - apply (Permutation_Forall (Permutation_sym Hperm)).
    eapply List.Forall_impl; [|exact Hall]. intros [k v] Hk. simpl in *. congruence.
Qed.

Lemma forwarding_is_order_independent_witness :
  let w := fresh [] in
  let h := headers filterMediaType filterMediaType in
  let r1 := request [("include", ["a"]); ("filter[b]", ["c"])] h in
  let r2 := request [("filter[b]", ["c"]); ("include", ["a"])] h in
  (Permutation (r_Query r1) (r_Query r2) /\ r_Header r1 = r_Header r2 /\
   parsed (r_Query r1)) /\
  ((exists w' r', newFn w r1 = Forwarded w' r') <->
   (exists w' r', newFn w r2 = Forwarded w' r')).
Proof.
  intros w h r1 r2.
  assert (H1 : Permutation (r_Query r1) (r_Query r2)) by apply perm_swap.
  assert (H2 : r_Header r1 = r_Header r2) by reflexivity.
  assert (H3 : parsed (r_Query r1)) by (repeat constructor; discriminate).
  split; [auto|].
  apply (forwarding_is_order_independent w r1 r2 H1 H2 H3).
Defined.

Lemma agree_head (sel : string -> bool) (values : list (string * list string)) :
  agree sel values ->
  forall k1 x1 rest1 k2 x2 rest2,
    In (k1, x1 :: rest1) values -> In (k2, x2 :: rest2) values ->
    sel k1 = true -> sel k2 = true -> x1 = x2.
Proof.
  intros Hagree k1 x1 rest1 k2 x2 rest2 Hin1 Hin2 Hs1 Hs2.
  specialize (Hagree _ _ _ _ Hin1 Hin2 Hs1 Hs2). simpl in Hagree. congruence.
Qed.

(** The bundle does not depend on the order of the visit either, when no
    two keys compete for one place in it. *)
Lemma rangeValues_order_independent (w : ResponseWriter) (r : Request)
    (values values' : list (string * list string)) :
  Permutation values values' -> unambiguous values ->
  forall w1 w2 p p1 p2,
    rangeValues w r p values = Continue w1 p1 ->
    rangeValues w r p values' = Continue w2 p2 ->
    p1 = p2.
Proof.
  intros Hperm (Hfl & Hfd & Hin) w1 w2 p p1 p2 H1 H2.
  assert (HI : Includes p1 = Includes p2).
  { apply (slot_permutation (fun k => String.eqb k "include") Includes comma_list
             Includes_other Includes_capture r values values' Hperm)
      with (w := w) (w1 := w1) (w2 := w2) (p := p); auto.
    intros. f_equal. eapply (agree_head _ _ Hin); eassumption. }
  assert (HD : Fields p1 = Fields p2).
  { apply map_eq. intros sub.
    apply (slot_permutation (fun k => captures_fields k sub) (fun p => Fields p !! sub)
             (fun y => Some (comma_list y)) (Fields_other sub) (Fields_capture sub)
             r values values' Hperm)
      with (w := w) (w1 := w1) (w2 := w2) (p := p); auto.
    intros. do 2 f_equal. eapply (agree_head _ _ (Hfd sub)); eassumption. }
  assert (HF : Filters p1 = Filters p2).
  { apply map_eq. intros sub.
    apply (slot_permutation (fun k => captures k sub) (fun p => Filters p !! sub)
             (fun y => Some y) (Filters_other sub) (Filters_capture sub)
             r values values' Hperm)
      with (w := w) (w1 := w1) (w2 := w2) (p := p); auto.
    intros. f_equal. eapply (agree_head _ _ (Hfl sub)); eassumption. }
  assert (HHD : HasFields p1 = HasFields p2).
  { apply (slot_permutation is_fields HasFields (fun _ => true)
             HasFields_other HasFields_capture r values values' Hperm)
      with (w := w) (w1 := w1) (w2 := w2) (p := p); auto. }
  assert (HHI : HasIncludes p1 = HasIncludes p2).
  { apply (slot_permutation (fun k => String.eqb k "include") HasIncludes (fun _ => true)
             HasIncludes_other HasIncludes_capture r values values' Hperm)
      with (w := w) (w1 := w1) (w2 := w2) (p := p); auto. }
  assert (HHF : HasFilters p1 = HasFilters p2).
  { apply (slot_permutation (fun k => HasPrefix k "filter") HasFilters (fun _ => true)
             HasFilters_other HasFilters_capture r values values' Hperm)
      with (w := w) (w1 := w1) (w2 := w2) (p := p); auto. }
  destruct p1, p2. simpl in *. congruence.
Qed.

(** Two requests that differ in the order of their query only, and in
    which no two keys compete for one place of the bundle, are forwarded
    with the same context: the same bundle, or none. *)
Theorem bundle_is_order_independent (w w1 w2 : ResponseWriter)
    (r1 r2 r1' r2' : Request) :
  Permutation (r_Query r1) (r_Query r2) ->
  r_Header r1 = r_Header r2 -> r_Context r1 = r_Context r2 ->
  unambiguous (r_Query r1) ->
  newFn w r1 = Forwarded w1 r1' -> newFn w r2 = Forwarded w2 r2' ->
  r_Context r1' = r_Context r2' /\ bundle r1' = bundle r2' /\ w1 = w2.
Proof.
  intros Hperm Hh Hc Hun Hn1 Hn2.
  destruct (newFn_Forwarded w w1 r1 r1' Hn1) as (p1 & Hrun1 & -> & Hcase1).
  destruct (newFn_Forwarded w w2 r2 r2' Hn2) as (p2 & Hrun2 & -> & Hcase2).
  rewrite (rangeValues_same_headers w r2 r1 (r_Query r2) (eq_sym Hh)) in Hrun2.
  pose proof (rangeValues_order_independent w r1 _ _ Hperm Hun _ _ _ _ _ Hrun1 Hrun2)
    as Hp. subst p2.
  assert (Hctx : r_Context r1' = r_Context r2').
  { destruct Hcase1 as [[Hf1 ->]|[Hf1 ->]], Hcase2 as [[Hf2 ->]|[Hf2 ->]];
      simpl; congruence. }
  split; [exact Hctx|]. split; [unfold bundle; rewrite Hctx; reflexivity|reflexivity].
Qed.

Lemma bundle_is_order_independent_witness :
  let w := fresh [] in
  let h := headers filterMediaType filterMediaType in
  let r1 := request [("fields[a]", ["x,y"]); ("filter[b]", ["c"])] h in
  let r2 := request [("filter[b]", ["c"]); ("fields[a]", ["x,y"])] h in
  let p := mkParams [] (<["a" := ["x"; "y"]]> ∅) (<["b" := "c"]> ∅) true false true in
  let r1' := WithContext r1 (WithValue [] ContextKeyQueryParams (ParamsValue p)) in
  let r2' := WithContext r2 (WithValue [] ContextKeyQueryParams (ParamsValue p)) in
  (Permutation (r_Query r1) (r_Query r2) /\
   newFn w r1 = Forwarded w r1' /\ newFn w r2 = Forwarded w r2') /\
  r_Context r1' = r_Context r2' /\ bundle r1' = bundle r2' /\ w = w.
Proof.
  intros w h r1 r2 p r1' r2'.
  assert (H1 : Permutation (r_Query r1) (r_Query r2)) by apply perm_swap.
  assert (H2 : newFn w r1 = Forwarded w r1') by (vm_compute; reflexivity).
  assert (H3 : newFn w r2 = Forwarded w r2') by (vm_compute; reflexivity).
  split; [auto|].
  apply (bundle_is_order_independent w w w r1 r2 r1' r2' H1 eq_refl eq_refl); auto.
  repeat split; intros; intros k1 v1 k2 v2 [E1|[E1|[]]] [E2|[E2|[]]] S1 S2;
    inversion E1; inversion E2; subst; try reflexivity;
    vm_compute in S1; vm_compute in S2; discriminate.
Defined.

(** A handler wrapped twice.  The inner middleware parses the query of
    the request it is handed again and ranges over it in an order of its
    own, [order] of the outer one.  What the outer middleware answers, it
    answers alone; what it forwards, the inner one forwards too, whatever
    its order, with the same headers, and with the same bundle when no two
    keys compete for one place in it. *)
Theorem MiddlewareFn_twice (fn : HandlerFunc)
    (order : list (string * list string) -> list (string * list string))
    (w : ResponseWriter) (r : Request) :
  (forall values, Permutation values (order values)) ->
  parsed (r_Query r) ->
  let inner : HandlerFunc :=
    fun w1 r1 => MiddlewareFn fn w1 (with_query r1 (order (r_Query r1))) in
  (forall w' r', newFn w r = Forwarded w' r' ->
     exists r'', MiddlewareFn inner w r = fn w' r'' /\
       r_Header r'' = r_Header r /\ r_Query r'' = order (r_Query r) /\
       (unambiguous (r_Query r) -> bundle r'' = bundle r')) /\
  (forall w', newFn w r = Terminated w' -> MiddlewareFn inner w r = Some w').
Proof.
  intros Hord Hparsed inner. split.
  - intros w' r' Hn.
    destruct (newFn_Forwarded w w' r r' Hn) as (p & Hrun & -> & Hcase).
    assert (Hq : r_Query r' = r_Query r)
      by (destruct Hcase as [[_ ->]|[_ ->]]; reflexivity).
    assert (Hh : r_Header r' = r_Header r)
      by (destruct Hcase as [[_ ->]|[_ ->]]; reflexivity).
    pose proof (Hord (r_Query r)) as Hperm.
    set (q2 := order (r_Query r)) in *.
    assert (Hparsed2 : parsed q2).
    { unfold parsed in *. eapply Permutation_Forall; eassumption. }
    assert (Hcont : exists p2, rangeValues w r newParams q2 = Continue w p2).
    { apply (rangeValues_Continue_iff w r q2 Hparsed2 newParams).
      apply (Permutation_Forall Hperm).
      apply (rangeValues_Continue_iff w r _ Hparsed newParams). eauto. }
    destruct Hcont as [p2 Hrun2].
    set (r2 := with_query r' q2).
    assert (Hrun2' : rangeValues w r2 newParams (r_Query r2) = Continue w p2).
    { change (r_Query r2) with q2.
      rewrite (rangeValues_same_headers w r2 r q2 Hh). exact Hrun2. }
    assert (Hinner : MiddlewareFn inner w r = MiddlewareFn fn w r2).
    { rewrite (MiddlewareFn_Forwarded w w r r' Hn). unfold inner.
      rewrite Hq. reflexivity. }
    assert (Hsame : unambiguous (r_Query r) -> p2 = p).
    { intros Hun. symmetry.
      exact (rangeValues_order_independent w r _ _ Hperm Hun _ _ _ _ _ Hrun Hrun2). }
    destruct (HasFilters p2 || HasFields p2 || HasIncludes p2) eqn:Hflag2.
    + exists (WithContext r2 (WithValue (r_Context r2) ContextKeyQueryParams (ParamsValue p2))).
      split.
      * rewrite Hinner. apply MiddlewareFn_Forwarded.
        unfold newFn. rewrite Hrun2', Hflag2. reflexivity.
      * split; [exact Hh|]. split; [reflexivity|].
        intros Hun. rewrite bundle_WithValue. rewrite (Hsame Hun) in *.
        destruct Hcase as [[_ ->]|[Hnone _]]; [|congruence].
        rewrite bundle_WithValue. reflexivity.
    + exists r2. split.
      * rewrite Hinner. apply MiddlewareFn_Forwarded.
        unfold newFn. rewrite Hrun2', Hflag2. reflexivity.
      * split; [exact Hh|]. split; [reflexivity|].
        intros Hun. rewrite (Hsame Hun) in *.
        destruct Hcase as [[Hsome _]|[_ ->]]; [congruence|reflexivity].
  - intros w' Hn. apply MiddlewareFn_Terminated. exact Hn.
Qed.

Lemma MiddlewareFn_twice_witness :
  let w := fresh [] in
  let r := request [("include", ["a"]); ("filter[b]", ["c"])]
             (headers filterMediaType filterMediaType) in
  let p := mkParams ["a"] ∅ (<["b" := "c"]> ∅) false true true in
  let fn : HandlerFunc := fun w' _ => Some w' in
  (parsed (r_Query r) /\ unambiguous (r_Query r)) /\
  exists r'',
    MiddlewareFn (fun w1 r1 => MiddlewareFn fn w1 (with_query r1 (rev (r_Query r1)))) w r
      = fn w r'' /\
    r_Query r'' = [("filter[b]", ["c"]); ("include", ["a"])] /\
    bundle r'' = Some p.
Proof.
  intros w r p fn.
  assert (H1 : parsed (r_Query r)) by (repeat constructor; discriminate).
  assert (H2 : unambiguous (r_Query r)).
  { repeat split; intros; intros k1 v1 k2 v2 [E1|[E1|[]]] [E2|[E2|[]]] S1 S2;
      inversion E1; inversion E2; subst; try reflexivity;
      vm_compute in S1; vm_compute in S2; discriminate. }
  split; [auto|].
  destruct (MiddlewareFn_twice fn (@rev (string * list string)) w r
              (fun values => Permutation_rev values) H1) as [Hfwd _].
  destruct (Hfwd w
              (WithContext r (WithValue (r_Context r) ContextKeyQueryParams (ParamsValue p)))
              ltac:(vm_compute; reflexivity))
    as (r'' & Hm & _ & Hq & Hb).
  exists r''. split; [exact Hm|]. split; [exact Hq|].
  rewrite (Hb H2). apply bundle_WithValue.
Defined.

(** ** What a terminated request has got *)

Lemma visit_Return_cases (w w' : ResponseWriter) (r : Request) (p : Params)
    (k : string) (v : list string) :
  visit w r p k v = Return w' ->
  w' = not_acceptable w r \/ w' = unsupported_media_type w r \/
  exists v0 rest, v = v0 :: rest /\ malformed k = true /\ w' = bad_request w k v0.
Proof.
  unfold visit, malformed, bad_request, kind.
  destruct (HasPrefix k "filter") eqn:Hf.
  - destruct (valid_headers r) eqn:Hvalid.
    + rewrite (validateHeader_valid w r Hvalid).
      destruct (qregx k) as [[m0 m1]|]; destruct v as [|v0 rest]; try discriminate.
      intros H. inversion H; subst. right; right. eauto.
    + destruct (validateHeader_invalid w r Hvalid) as [Hs Hw].
      destruct (validateHeader w r) as [w1 b]. simpl in *. subst b.
      intros H. inversion H; subst. destruct Hw as [->| ->]; auto.
  - destruct (HasPrefix k "fields") eqn:Hd.
    + destruct (qregx k) as [[m0 m1]|]; destruct v as [|v0 rest]; try discriminate.
      intros H. inversion H; subst. right; right. eauto.
    + destruct (String.eqb k "include"); [destruct v|]; discriminate.
Qed.

Lemma rangeValues_Return_cases (r : Request) (values : list (string * list string)) :
  forall w w' p, rangeValues w r p values = Return w' ->
    w' = not_acceptable w r \/ w' = unsupported_media_type w r \/
    exists k v0 rest, In (k, v0 :: rest) values /\ malformed k = true /\
                      w' = bad_request w k v0.
Proof.
  induction values as [|[k v] later IH]; simpl; intros w w' p H; [discriminate|].
  destruct (visit w r p k v) as [w1 p1|w1|] eqn:Hvis; try discriminate.
  - pose proof (visit_Continue_writer _ _ _ _ _ _ _ Hvis) as ->.
    destruct (IH _ _ _ H) as [Ha|[Hu|(k2 & v2 & rest2 & Hin & Hm & Hw)]]; auto.
    right; right. exists k2, v2, rest2. split; [right; exact Hin|auto].
  - inversion H; subst.
    destruct (visit_Return_cases _ _ _ _ _ _ Hvis) as [Ha|[Hu|(v0 & rest & -> & Hm & Hw)]];
      auto.
    right; right. exists k, v0, rest. split; [left; reflexivity|auto].
Qed.

Lemma append_nonempty (a b : string) : a <> EmptyString -> a +:+ b <> EmptyString.
Proof. destruct a; [contradiction|discriminate]. Qed.

(** A request the middleware answers itself, on a writer whose header is
    not out yet, gets the status 400, 406 or 415 and the [Content-Type] of
    the JSON-API, never another status; and when the write succeeds, its
    body has grown by the one error document of that status. *)
Theorem terminated_response_is_an_error (w w' : ResponseWriter) (r : Request) :
  newFn w r = Terminated w' ->
  w_wroteHeader w = false ->
  (w_Code w' = 400 \/ w_Code w' = 406 \/ w_Code w' = 415) /\
  w_sent w' !! "Content-Type" = Some ["application/vnd.api+json"] /\
  ((forall msg, head (w_faults w) <> Some (Some msg)) ->
   exists title detail,
     w_Body w' = (w_Body w ++ [Json (error_document (w_Code w') title detail)])%list).
Proof.
  intros Hn Hw. unfold newFn in Hn.
  destruct (rangeValues w r newParams (r_Query r)) as [w1 p1|w1|] eqn:Hrun;
    try discriminate.
  { destruct (HasFilters p1 || HasFields p1 || HasIncludes p1); discriminate. }
  inversion Hn; subst w1. clear Hn.
  assert (Hshape : exists status title detail,
            (status = 400 \/ status = 406 \/ status = 415) /\
            title <> EmptyString /\ detail <> EmptyString /\
            w' = queryParamError w status title detail).
  { destruct (rangeValues_Return_cases r _ _ _ _ Hrun)
      as [->|[->|(k & v0 & rest & _ & _ & ->)]].
    - exists 406, "Accept header is not acceptable",
        ("The given Accept header value " +:+ Get (r_Header r) acceptH +:+
         " is incorrect for filter query extension").
      split; [auto|]. split; [discriminate|].
      split; [apply append_nonempty; discriminate|reflexivity].
    - exists 415, "Media type is not supported",
        ("The given media type " +:+ Get (r_Header r) contentType +:+
         " in Content-Type header is not supported").
      split; [auto|]. split; [discriminate|].
      split; [apply append_nonempty; discriminate|reflexivity].
    - exists 400, "Invalid query parameter",
        ("Unable to match " +:+ kind k +:+ " query param " +:+ v0).
      split; [auto|]. split; [discriminate|].
      split; [apply append_nonempty; discriminate|reflexivity]. }
  destruct Hshape as (status & title & detail & Hstatus & Ht & Hd & ->).
  destruct (queryParamError_Code w status title detail Hw) as [Hcode Hsent].
  rewrite Hcode. split; [exact Hstatus|]. split; [exact Hsent|].
  intros Hok. exists title, detail.
  rewrite (queryParamError_written w status title detail Hw Hok Ht Hd). reflexivity.
Qed.

Lemma terminated_response_is_an_error_witness :
  let w := fresh [] in
  let r := request [("filter[name]", ["foo"])] ∅ in
  let w' := not_acceptable w r in
  (newFn w r = Terminated w' /\ w_wroteHeader w = false) /\
  (w_Code w' = 400 \/ w_Code w' = 406 \/ w_Code w' = 415) /\
  w_sent w' !! "Content-Type" = Some ["application/vnd.api+json"] /\
  ((forall msg, head (w_faults w) <> Some (Some msg)) ->
   exists title detail,
     w_Body w' = (w_Body w ++ [Json (error_document (w_Code w') title detail)])%list).
Proof.
  intros w r w'.
  assert (H1 : newFn w r = Terminated w') by (vm_compute; reflexivity).
  assert (H2 : w_wroteHeader w = false) by reflexivity.
  split; [auto|].
  apply (terminated_response_is_an_error w w' r H1 H2).
Defined.

Lemma append_injective (a b c : string) : a +:+ b = a +:+ c -> b = c.
Proof.
  induction a as [|x a IH]; simpl; intros H; [exact H|].
  inversion H. apply IH. assumption.
Qed.

Lemma length_append (a b : string) :
  String.length (a +:+ b) = (String.length a + String.length b)%nat.
Proof. induction a as [|x a IH]; simpl; [reflexivity|]. rewrite IH. reflexivity. Qed.

(** [String()] tells the keys apart: two context keys with the same text
    are the same key, and the text of a key is never the bare key. *)
Theorem contextKey_String_injective (c1 c2 : string) :
  (contextKey_String c1 = contextKey_String c2 -> c1 = c2) /\
  contextKey_String c1 <> c1.
Proof.
  split.
  - apply append_injective.
  - unfold contextKey_String. intros H.
    apply (f_equal String.length) in H. rewrite length_append in H.
    simpl in H. lia.
Qed.

(** * Further properties of the cache and no-cache middlewares *)

Import nocache.

Lemma Get_Set_same (h : Header) (key value : string) :
  Get (Set_ h key value) key = value.
Proof. unfold Get, Set_. rewrite lookup_insert_eq. reflexivity. Qed.

Lemma Get_Set_other (h : Header) (key key' value : string) :
  CanonicalHeaderKey key <> CanonicalHeaderKey key' ->
  Get (Set_ h key value) key' = Get h key'.
Proof. intros Hne. unfold Get, Set_. rewrite lookup_insert_ne by exact Hne. reflexivity. Qed.

(** The cache handler replaces whatever [Cache-Control] and [Expires]
    held by one value each, leaves every other header and everything
    already sent alone, and hands the request on as it is.  On a writer
    whose header is out it changes nothing of what was sent. *)
Theorem Handler_replaces_two_headers (Request : Type) (c : HTTPCache)
    (next : ResponseWriter -> Request -> ResponseWriter)
    (w : ResponseWriter) (r : Request) :
  exists w1,
    Handler Request c next w r = next w1 r /\
    w_Header w1 !! "Cache-Control" = Some ["public, max-age=" +:+ Itoa (MaxAge c)] /\
    w_Header w1 !! "Expires" = Some [Expires c] /\
    (forall key, CanonicalHeaderKey key <> "Cache-Control" ->
                 CanonicalHeaderKey key <> "Expires" ->
                 Get (w_Header w1) key = Get (w_Header w) key) /\
    w_wroteHeader w1 = w_wroteHeader w /\ w_Code w1 = w_Code w /\
    w_sent w1 = w_sent w /\ w_Body w1 = w_Body w.
Proof.
  eexists. split; [reflexivity|]. simpl. unfold Set_.
  change (CanonicalHeaderKey "Cache-Control") with "Cache-Control".
  change (CanonicalHeaderKey "Expires") with "Expires".
  split; [rewrite lookup_insert_ne by discriminate; apply lookup_insert_eq|].
  split; [apply lookup_insert_eq|].
  split; [|auto].
  intros key Hc He. unfold Get.
  rewrite !lookup_insert_ne by congruence. reflexivity.
Qed.

(** The constructor takes any count: [max-age] is positive exactly for a
    positive [day], zero for zero, and negative for a negative one. *)
Theorem NewHTTPCache_sign_of_max_age (day : Z) (t : Time.Time) :
  -3558 <= day <= 3558 ->
  (0 < MaxAge (NewHTTPCache day t) <-> 0 < day) /\
  (MaxAge (NewHTTPCache day t) = 0 <-> day = 0) /\
  (MaxAge (NewHTTPCache day t) < 0 <-> day < 0).
Proof.
  intros Hday. unfold NewHTTPCache. simpl.
  rewrite (thirty_day_units day Hday). unfold seconds_in_days. lia.
Qed.

Lemma NewHTTPCache_sign_of_max_age_witness :
  -3558 <= -1 <= 3558 /\ MaxAge (NewHTTPCache (-1) (Time.UTC 0)) < 0.
Proof.
  split; [lia|].
  apply (proj2 (proj2 (NewHTTPCache_sign_of_max_age (-1) (Time.UTC 0) ltac:(lia)))). lia.
Defined.

(** The header maps behind [setHeaders]. *)
Definition setAll (visited : list (string * string)) (h : Header) : Header :=
  fold_left (fun h' kv => Set_ h' (fst kv) (snd kv)) visited h.

Definition canonical_keys (visited : list (string * string)) : list string :=
  map (fun kv => CanonicalHeaderKey (fst kv)) visited.

Lemma setHeaders_setAll (visited : list (string * string)) :
  forall w, setHeaders visited w =
    mkWriter (setAll visited (w_Header w)) (w_wroteHeader w) (w_Code w)
             (w_sent w) (w_Body w) (w_faults w).
Proof.
  induction visited as [|[k v] later IH]; intros w.
  - destruct w; reflexivity.
  - unfold setHeaders, setAll in *. simpl. rewrite IH. reflexivity.
Qed.

Lemma setAll_lookup_other (visited : list (string * string)) (i : string) :
  ~ In i (canonical_keys visited) ->
  forall h, setAll visited h !! i = h !! i.
Proof.
  induction visited as [|[k v] later IH]; intros Hni h; [reflexivity|].
  unfold setAll in *. simpl in *.
  rewrite IH by tauto. unfold Set_. apply lookup_insert_ne. tauto.
Qed.

Lemma setAll_lookup_in (visited : list (string * string)) (k v : string) :
  List.NoDup (canonical_keys visited) -> In (k, v) visited ->
  forall h, setAll visited h !! CanonicalHeaderKey k = Some [v].
Proof.
  induction visited as [|[k1 v1] later IH]; intros Hnd Hin h; [contradiction|].
  inversion Hnd as [|? ? Hni Hnd']; subst.
  change (setAll ((k1, v1) :: later) h) with (setAll later (Set_ h k1 v1)).
  destruct Hin as [Heq|Hin].
  - inversion Heq; subst.
    rewrite (setAll_lookup_other later _ Hni). unfold Set_. apply lookup_insert_eq.
  - apply IH; assumption.
Qed.

Lemma in_canonical_keys (visited : list (string * string)) (i : string) :
  In i (canonical_keys visited) ->
  exists k v, In (k, v) visited /\ CanonicalHeaderKey k = i.
Proof.
  unfold canonical_keys. intros H. apply in_map_iff in H as ([k v] & Hk & Hin).
  exists k, v. auto.
Qed.

(** Setting a set of headers with distinct keys gives the same map in any
    order, and setting them again changes nothing. *)
Lemma setAll_Permutation (l l' : list (string * string)) (h : Header) :
  List.NoDup (canonical_keys l) -> Permutation l l' ->
  setAll l' h = setAll l h /\ setAll l' (setAll l h) = setAll l h.
Proof.
  intros Hnd Hperm.
  assert (Hnd' : List.NoDup (canonical_keys l')).
  { eapply Permutation_NoDup; [|exact Hnd]. apply Permutation_map. exact Hperm. }
  assert (Hkeys : forall i, In i (canonical_keys l') <-> In i (canonical_keys l)).
  { intros i. split; apply Permutation_in; [symmetry|];
      apply Permutation_map; exact Hperm. }
  split; apply map_eq; intros i.
  - destruct (in_dec string_dec i (canonical_keys l)) as [Hi|Hi].
    + destruct (in_canonical_keys l i Hi) as (k & v & Hin & <-).
      rewrite (setAll_lookup_in l k v Hnd Hin).
      apply setAll_lookup_in; [exact Hnd'|]. eapply Permutation_in; eassumption.
    + rewrite (setAll_lookup_other l i Hi).
      apply setAll_lookup_other. rewrite Hkeys. exact Hi.
  - destruct (in_dec string_dec i (canonical_keys l)) as [Hi|Hi].
    + destruct (in_canonical_keys l i Hi) as (k & v & Hin & <-).
      rewrite (setAll_lookup_in l k v Hnd Hin).
      apply setAll_lookup_in; [exact Hnd'|]. eapply Permutation_in; eassumption.
    + apply setAll_lookup_other. rewrite Hkeys. exact Hi.
Qed.

Lemma noCacheHeaders_keys (zone : string) (offset : Z) :
  List.NoDup (canonical_keys (noCacheHeaders zone offset)).
Proof.
  unfold canonical_keys, noCacheHeaders. simpl.
  change (CanonicalHeaderKey "Expires") with "Expires".
  change (CanonicalHeaderKey "Cache-Control") with "Cache-Control".
  change (CanonicalHeaderKey "Pragma") with "Pragma".
  change (CanonicalHeaderKey "X-Accel-Expires") with "X-Accel-Expires".
  repeat constructor; simpl; intros H; repeat destruct H as [H|H]; try discriminate; exact H.
Qed.

Lemma setHeaders_Permutation (zone : string) (offset : Z)
    (visited : list (string * string)) (w : ResponseWriter) :
  Permutation (noCacheHeaders zone offset) visited ->
  setHeaders visited w = setHeaders (noCacheHeaders zone offset) w.
Proof.
  intros Hperm. rewrite !setHeaders_setAll.
  rewrite (proj1 (setAll_Permutation _ _ (w_Header w) (noCacheHeaders_keys zone offset) Hperm)).
  reflexivity.
Qed.

(** In whatever order the loop goes through [noCacheHeaders], the handler
    is called with the same writer: the four headers hold their one fixed
    value, whatever they held before, every other header and everything
    already sent is as it was, and the request goes on unchanged. *)
Theorem Middleware_sets_the_four_headers (Request : Type) (zone : string) (offset : Z)
    (visited : list (string * string))
    (next : ResponseWriter -> Request -> ResponseWriter)
    (w : ResponseWriter) (r : Request) :
  Permutation (noCacheHeaders zone offset) visited ->
  exists w1,
    Middleware Request visited next w r = next w1 r /\
    w1 = setHeaders (noCacheHeaders zone offset) w /\
    w_Header w1 !! "Expires" = Some [epoch zone offset] /\
    w_Header w1 !! "Cache-Control" =
      Some ["no-cache, no-store, no-transform, must-revalidate, private, max-age=0"] /\
    w_Header w1 !! "Pragma" = Some ["no-cache"] /\
    w_Header w1 !! "X-Accel-Expires" = Some ["0"] /\
    (forall i, i <> "Expires" -> i <> "Cache-Control" -> i <> "Pragma" ->
               i <> "X-Accel-Expires" -> w_Header w1 !! i = w_Header w !! i) /\
    w_wroteHeader w1 = w_wroteHeader w /\ w_Code w1 = w_Code w /\
    w_sent w1 = w_sent w /\ w_Body w1 = w_Body w.
Proof.
  intros Hperm. exists (setHeaders (noCacheHeaders zone offset) w).
  split; [unfold Middleware; rewrite (setHeaders_Permutation zone offset visited w Hperm);
          reflexivity|].
  split; [reflexivity|].
  rewrite setHeaders_setAll. simpl.
  pose proof (noCacheHeaders_keys zone offset) as Hnd.
  split; [apply (setAll_lookup_in _ "Expires" _ Hnd); simpl; auto|].
  split; [apply (setAll_lookup_in _ "Cache-Control" _ Hnd); simpl; auto|].
  split; [apply (setAll_lookup_in _ "Pragma" _ Hnd); simpl; auto|].
  split; [apply (setAll_lookup_in _ "X-Accel-Expires" _ Hnd); simpl; auto|].
  split; [|auto].
  intros i H1 H2 H3 H4.
  apply (setAll_lookup_other (noCacheHeaders zone offset) i).
  unfold canonical_keys, noCacheHeaders. simpl.
  change (CanonicalHeaderKey "Expires") with "Expires".
  change (CanonicalHeaderKey "Cache-Control") with "Cache-Control".
  change (CanonicalHeaderKey "Pragma") with "Pragma".
  change (CanonicalHeaderKey "X-Accel-Expires") with "X-Accel-Expires".
  intros [H|[H|[H|[H|[]]]]]; congruence.
Qed.

Lemma Middleware_sets_the_four_headers_witness :
  let visited := [("Cache-Control",
                   "no-cache, no-store, no-transform, must-revalidate, private, max-age=0");
                  ("Expires", epoch "UTC" 0);
                  ("Pragma", "no-cache"); ("X-Accel-Expires", "0")] in
  let w := HeaderSet (fresh []) "Cache-Control" "public, max-age=60" in
  Permutation (noCacheHeaders "UTC" 0) visited /\
  exists w1,
    Middleware unit visited (fun w' _ => w') w tt = w1 /\
    w_Header w1 !! "Cache-Control" =
      Some ["no-cache, no-store, no-transform, must-revalidate, private, max-age=0"].
Proof.
  intros visited w.
  assert (H : Permutation (noCacheHeaders "UTC" 0) visited).
  { unfold noCacheHeaders, visited. apply perm_swap. }
  split; [exact H|].
  destruct (Middleware_sets_the_four_headers unit "UTC" 0 visited (fun w' _ => w') w tt H)
    as (w1 & Hm & _ & _ & Hcc & _).
  exists w1. split; [exact Hm|exact Hcc].
Defined.

(** Wrapping a handler in the no-cache middleware twice is the same as
    wrapping it once, in whatever orders the two loops run. *)
Theorem Middleware_twice (Request : Type) (zone : string) (offset : Z)
    (visited visited' : list (string * string))
    (next : ResponseWriter -> Request -> ResponseWriter)
    (w : ResponseWriter) (r : Request) :
  Permutation (noCacheHeaders zone offset) visited ->
  Permutation (noCacheHeaders zone offset) visited' ->
  Middleware Request visited (Middleware Request visited' next) w r
    = Middleware Request visited next w r.
Proof.
  intros Hperm Hperm'. unfold Middleware. f_equal.
  rewrite (setHeaders_Permutation zone offset visited w Hperm).
  rewrite (setHeaders_Permutation zone offset visited' _ Hperm').
  rewrite !setHeaders_setAll. simpl. f_equal.
  apply (proj2 (setAll_Permutation _ _ (w_Header w) (noCacheHeaders_keys zone offset)
                  (Permutation_refl _))).
Qed.

Lemma Middleware_twice_witness :
  let visited := noCacheHeaders "UTC" 0 in
  (Permutation (noCacheHeaders "UTC" 0) visited) /\
  Middleware unit visited (Middleware unit visited (fun w' _ => w')) (fresh []) tt
    = Middleware unit visited (fun w' _ => w') (fresh []) tt.
Proof.
  intros visited.
  assert (H : Permutation (noCacheHeaders "UTC" 0) visited) by apply Permutation_refl.
  split; [exact H|].
  apply (Middleware_twice unit "UTC" 0 visited visited (fun w' _ => w') (fresh []) tt H H).
Defined.

(** Of the cache and the no-cache middleware around one handler, the one
    next to the handler decides [Cache-Control] and [Expires]: it runs
    last and replaces what the outer one has set. *)
Theorem inner_middleware_decides (Request : Type) (zone : string) (offset : Z)
    (visited : list (string * string)) (c : HTTPCache)
    (next : ResponseWriter -> Request -> ResponseWriter)
    (w : ResponseWriter) (r : Request) :
  Permutation (noCacheHeaders zone offset) visited ->
  (exists w1,
     Middleware Request visited (Handler Request c next) w r = next w1 r /\
     w_Header w1 !! "Cache-Control" = Some ["public, max-age=" +:+ Itoa (MaxAge c)] /\
     w_Header w1 !! "Expires" = Some [Expires c] /\
     w_Header w1 !! "Pragma" = Some ["no-cache"] /\
     w_Header w1 !! "X-Accel-Expires" = Some ["0"]) /\
  (exists w2,
     Handler Request c (Middleware Request visited next) w r = next w2 r /\
     w_Header w2 !! "Cache-Control" =
       Some ["no-cache, no-store, no-transform, must-revalidate, private, max-age=0"] /\
     w_Header w2 !! "Expires" = Some [epoch zone offset] /\
     w_Header w2 !! "Pragma" = Some ["no-cache"] /\
     w_Header w2 !! "X-Accel-Expires" = Some ["0"]).
Proof.
  intros Hperm. pose proof (noCacheHeaders_keys zone offset) as Hnd. split.
  - eexists. split; [reflexivity|].
    rewrite (setHeaders_Permutation zone offset visited w Hperm).
    rewrite setHeaders_setAll. unfold HeaderSet. cbn [w_Header]. unfold Set_.
    change (CanonicalHeaderKey "Cache-Control") with "Cache-Control".
    change (CanonicalHeaderKey "Expires") with "Expires".
    split; [rewrite lookup_insert_ne by discriminate; apply lookup_insert_eq|].
    split; [apply lookup_insert_eq|].
    split; rewrite !lookup_insert_ne by discriminate.
    + apply (setAll_lookup_in (noCacheHeaders zone offset) "Pragma" _ Hnd).
      simpl; auto.
    + apply (setAll_lookup_in (noCacheHeaders zone offset) "X-Accel-Expires" _ Hnd).
      simpl; auto.
  - eexists. split; [reflexivity|].
    rewrite (setHeaders_Permutation zone offset visited _ Hperm).
    rewrite setHeaders_setAll.
    split; [apply (setAll_lookup_in (noCacheHeaders zone offset) "Cache-Control" _ Hnd);
            simpl; auto|].
    split; [apply (setAll_lookup_in (noCacheHeaders zone offset) "Expires" _ Hnd);
            simpl; auto|].
    split; [apply (setAll_lookup_in (noCacheHeaders zone offset) "Pragma" _ Hnd);
            simpl; auto|].
    apply (setAll_lookup_in (noCacheHeaders zone offset) "X-Accel-Expires" _ Hnd);
      simpl; auto.
Qed.

Lemma inner_middleware_decides_witness :
  let visited := noCacheHeaders "UTC" 0 in
  let c := NewHTTPCache 1 (Time.UTC 0) in
  Permutation (noCacheHeaders "UTC" 0) visited /\
  (exists w1,
     Middleware unit visited (Handler unit c (fun w' _ => w')) (fresh []) tt = w1 /\
     w_Header w1 !! "Cache-Control" = Some ["public, max-age=" +:+ Itoa (MaxAge c)]) /\
  (exists w2,
     Handler unit c (Middleware unit visited (fun w' _ => w')) (fresh []) tt = w2 /\
     w_Header w2 !! "Cache-Control" =
       Some ["no-cache, no-store, no-transform, must-revalidate, private, max-age=0"]).
Proof.
  intros visited c.
  assert (H : Permutation (noCacheHeaders "UTC" 0) visited) by apply Permutation_refl.
  split; [exact H|].
  destruct (inner_middleware_decides unit "UTC" 0 visited c (fun w' _ => w') (fresh []) tt H)
    as [(w1 & Hm1 & Hc1 & _) (w2 & Hm2 & Hc2 & _)].
  split; [exists w1|exists w2]; auto.
Defined.

(** [epoch] is the epoch on the clock of the local zone, with the
    abbreviation of that zone: the text of the comment in the source,
    [Thu, 01 Jan 1970 00:00:00 UTC], when the zone is UTC, a time on the
    first of January 1970 east of it, and a time on the last day of 1969 in
    every zone up to a day west of it. *)
Theorem epoch_is_local_time (zone : string) (offset : Z) :
  zone <> EmptyString ->
  (offset = 0 -> epoch zone offset = "Thu, 01 Jan 1970 00:00:00 " +:+ zone) /\
  (0 <= offset < 86400 ->
     exists hh mm ss, epoch zone offset =
       "Thu, 01 Jan 1970 " +:+ hh +:+ ":" +:+ mm +:+ ":" +:+ ss +:+ " " +:+ zone) /\
  (-86400 <= offset < 0 ->
     exists hh mm ss, epoch zone offset =
       "Wed, 31 Dec 1969 " +:+ hh +:+ ":" +:+ mm +:+ ":" +:+ ss +:+ " " +:+ zone).
Proof.
  intros Hzone. apply GoStringFacts.is_empty_false in Hzone.
  unfold epoch, Time.FormatRFC1123, Time.zone_text. rewrite Hzone. rewrite Z.add_0_l.
  split; [|split].
  - intros ->. reflexivity.
  - intros Hoff. rewrite (Z.div_small offset 86400) by lia.
    change (Time.civil 0) with (1970, 1, 1). cbv beta iota zeta.
    exists (Time.pad2 (offset mod 86400 / 3600)),
           (Time.pad2 (offset mod 86400 mod 3600 / 60)),
           (Time.pad2 (offset mod 86400 mod 60)).
    reflexivity.
  - intros Hoff.
    assert (Hdiv : offset / 86400 = -1).
    { symmetry. apply (Z.div_unique offset 86400 (-1) (offset + 86400)); lia. }
    rewrite Hdiv. change (Time.civil (-1)) with (1969, 12, 31). cbv beta iota zeta.
    exists (Time.pad2 (offset mod 86400 / 3600)),
           (Time.pad2 (offset mod 86400 mod 3600 / 60)),
           (Time.pad2 (offset mod 86400 mod 60)).
    reflexivity.
Qed.

Lemma epoch_is_local_time_witness :
  String "P" (String "S" (String "T" EmptyString)) <> EmptyString /\
  epoch "PST" (-28800) = "Wed, 31 Dec 1969 16:00:00 PST".
Proof.
  split; [discriminate|].
  destruct (epoch_is_local_time "PST" (-28800) ltac:(discriminate)) as (_ & _ & H).
  destruct (H ltac:(lia)) as [clock Hc]. reflexivity.
Defined.
